(** * providers/bind/prettyzone.go: the pretty zone-file writer

    A shallow embedding of the record comparator ([zoneGenData.Less],
    [zoneLabelLess], [zoneRrtypeLess]) and of the zone renderer
    ([WriteZoneFile], [generateZoneFileHelper], [formatLine]), with the
    properties of the ordering and of the emitted lines.

    Go strings are byte strings: they are [string] here, compared with
    [String.compare], which is the byte-wise lexicographic order of Go's
    [<] on strings.  [uint16] and [uint32] header fields are [N]; no
    arithmetic is done on them, only comparisons.  [[]byte] is [list byte]. *)

From Stdlib Require Import List String Ascii NArith Arith Bool Lia.
From Stdlib.Strings Require Import Byte.
From Stdlib Require Import Permutation Sorted DecimalString.
Import ListNotations.

Local Open Scope string_scope.
Local Open Scope list_scope.

(** ** Outcomes

    [log.Fatalf] terminates the process and an index or type-assertion
    failure panics; neither returns to the caller. *)

Inductive fatal : Type :=
| IPsNot4Bytes                       (* "should not happen: IPs are not 4 bytes" *)
| TooFewItems (line : string)        (* "Too few items in: %v" *)
| UnimplementedClass (cls : string). (* "Unimplemented class=%v" *)

Inductive outcome (A : Type) : Type :=
| Ok (a : A)
| Fatal (f : fatal)
| Panic.

Arguments Ok {A} a.
Arguments Fatal {A} f.
Arguments Panic {A}.

Definition bind {A B : Type} (m : outcome A) (k : A -> outcome B) : outcome B :=
  match m with
  | Ok a => k a
  | Fatal f => Fatal f
  | Panic => Panic
  end.

Notation "x <- m ;; k" := (bind m (fun x => k))
  (at level 61, m at next level, right associativity).

(** ** The record model consumed from the DNS library *)

Module dns.

Definition TypeA : N := 1.
Definition TypeNS : N := 2.
Definition TypeSOA : N := 6.
Definition TypeMX : N := 15.
Definition ClassINET : N := 1.

Record RR_Header : Type := mkHeader {
  Name : string;
  Rrtype : N;
  Class : N;
  Ttl : N
}.

(** The dynamic type of a record: a [dns.A] carries a [net.IP], a [dns.MX]
    a preference and an exchange; every other record type is [Other]. *)
Inductive body : Type :=
| A (ip : list byte)
| MX (Preference : N) (Mx : string)
| Other.

(** [Line] is the value of the record's [String()] method. *)
Record RR : Type := mkRR {
  Header : RR_Header;
  Body : body;
  Line : string
}.

(** [dns.IsFqdn] of the library release this code was written against: the
    name ends in a dot.  (Later releases also refuse an escaped final dot;
    what they accept still ends in a dot.) *)
Fixpoint IsFqdn (s : string) : bool :=
  match s with
  | EmptyString => false
  | String c EmptyString => Ascii.eqb c "."
  | String _ s' => IsFqdn s'
  end.

Definition Fqdn (s : string) : string :=
  if IsFqdn s then s else s ++ ".".

End dns.

Module dnsutil.

(** [dnsutil.AddOrigin]. *)
Definition AddOrigin (s origin : string) : string :=
  if dns.IsFqdn s then s
  else if String.eqb origin "" then s
  else if String.eqb s "@" || String.eqb s "" then origin
  else if String.eqb origin "." then dns.Fqdn s
  else s ++ "." ++ origin.

End dnsutil.

Module net.

Fixpoint isZeros (p : list byte) : bool :=
  match p with
  | [] => true
  | b :: p' => Byte.eqb b x00 && isZeros p'
  end.

(** [net.IP.To4]: [None] is the nil slice. *)
Definition To4 (ip : list byte) : option (list byte) :=
  if Nat.eqb (List.length ip) 4 then Some ip
  else if Nat.eqb (List.length ip) 16
          && isZeros (firstn 10 ip)
          && Byte.eqb (nth 10 ip x00) xff
          && Byte.eqb (nth 11 ip x00) xff
       then Some (firstn 4 (skipn 12 ip))
       else None.

End net.

Module bytes.

(** [bytes.Compare]: lexicographic on unsigned bytes. *)
Fixpoint Compare (a b : list byte) : comparison :=
  match a, b with
  | [], [] => Eq
  | [], _ :: _ => Lt
  | _ :: _, [] => Gt
  | x :: a', y :: b' =>
      match N.compare (Byte.to_N x) (Byte.to_N y) with
      | Eq => Compare a' b'
      | c => c
      end
  end.

End bytes.

Module strings.

(** [strings.Split(s, sep)] for a one-byte separator: never empty. *)
Fixpoint Split (s : string) (sep : ascii) : list string :=
  match s with
  | EmptyString => [EmptyString]
  | String c s' =>
      if Ascii.eqb c sep then EmptyString :: Split s' sep
      else match Split s' sep with
           | [] => [String c EmptyString]
           | h :: t => String c h :: t
           end
  end.

(** [strings.SplitN(s, sep, n)] for a one-byte separator and [n >= 0]:
    at most [n] pieces, the last one the unsplit remainder. *)
Fixpoint SplitN (s : string) (sep : ascii) (n : nat) {struct s} : list string :=
  match n with
  | 0 => []
  | 1 => [s]
  | S n' =>
      match s with
      | EmptyString => [EmptyString]
      | String c s' =>
          if Ascii.eqb c sep then EmptyString :: SplitN s' sep n'
          else match SplitN s' sep n with
               | [] => [String c EmptyString]
               | h :: t => String c h :: t
               end
      end
  end.

(** [strings.TrimRight(s, " ")]. *)
Fixpoint TrimRight (s : string) : string :=
  match s with
  | EmptyString => EmptyString
  | String c s' =>
      match TrimRight s' with
      | EmptyString => if Ascii.eqb c " " then EmptyString else String c EmptyString
      | t => String c t
      end
  end.

End strings.

(** ** The comparator *)

(** The loop of [zoneLabelLess]: [n] is [min + 1], the number of
    iterations left; [i] and [j] run down from the last components.
    [None] means every compared pair was equal. *)
Fixpoint zoneLabelLoop (as_ bs : list string) (i j n : nat) : option bool :=
  match n with
  | 0 => None
  | S n' =>
      let x := nth i as_ "" in
      let y := nth j bs "" in
      if negb (String.eqb x y) then Some (String.ltb x y)
      else zoneLabelLoop as_ bs (i - 1) (j - 1) n'
  end.

Definition zoneLabelLess (a b : string) : bool :=
  if String.eqb a b then false
  else if String.eqb a "@" then true
  else if String.eqb b "@" then false
  else if String.eqb a "*" then true
  else if String.eqb b "*" then false
  else
    let as_ := strings.Split a "." in
    let bs := strings.Split b "." in
    let ia := List.length as_ - 1 in
    let ib := List.length bs - 1 in
    let min := if Nat.ltb ia ib then List.length as_ - 1 else List.length bs - 1 in
    match zoneLabelLoop as_ bs ia ib (S min) with
    | Some r => r
    | None => Nat.ltb ia ib
    end.

Definition zoneRrtypeLess (a b : N) : bool :=
  if N.eqb a b then false
  else if N.eqb a dns.TypeSOA then true
  else if N.eqb b dns.TypeSOA then false
  else if N.eqb a dns.TypeNS then true
  else if N.eqb b dns.TypeNS then false
  else N.ltb a b.

Record zoneGenData : Type := mkZone {
  Origin : string;
  DefaultTtl : N;
  Records : list dns.RR
}.

(** The type assertions of [Less] to the A and MX record types panic on a
    record of another dynamic type. *)
Definition assertA (r : dns.RR) : outcome (list byte) :=
  match dns.Body r with
  | dns.A ip => Ok ip
  | _ => Panic
  end.

Definition assertMX (r : dns.RR) : outcome N :=
  match dns.Body r with
  | dns.MX p _ => Ok p
  | _ => Panic
  end.

(** The body of [zoneGenData.Less] on the two records it has fetched. *)
Definition lessRR (origin : string) (a b : dns.RR) : outcome bool :=
  let compA := dnsutil.AddOrigin (dns.Name (dns.Header a)) (origin ++ ".") in
  let compB := dnsutil.AddOrigin (dns.Name (dns.Header b)) (origin ++ ".") in
  if negb (String.eqb compA compB) then
    let compA := if String.eqb compA (origin ++ ".") then "@" else compA in
    let compB := if String.eqb compB (origin ++ ".") then "@" else compB in
    Ok (zoneLabelLess compA compB)
  else
    let rrtypeA := dns.Rrtype (dns.Header a) in
    let rrtypeB := dns.Rrtype (dns.Header b) in
    if negb (N.eqb rrtypeA rrtypeB) then Ok (zoneRrtypeLess rrtypeA rrtypeB)
    else if N.eqb rrtypeA dns.TypeA then
      ta2 <- assertA a ;;
      tb2 <- assertA b ;;
      match net.To4 ta2, net.To4 tb2 with
      | Some ipa, Some ipb =>
          Ok (match bytes.Compare ipa ipb with Lt => true | _ => false end)
      | _, _ => Fatal IPsNot4Bytes
      end
    else if N.eqb rrtypeA dns.TypeMX then
      pa <- assertMX a ;;
      pb <- assertMX b ;;
      Ok (N.ltb pa pb)
    else Ok (String.ltb (dns.Line a) (dns.Line b)).

(** [z.Less(i, j)]: indexing [z.Records] out of range panics. *)
Definition Less (z : zoneGenData) (i j : nat) : outcome bool :=
  match nth_error (Records z) i, nth_error (Records z) j with
  | Some a, Some b => lessRR (Origin z) a b
  | _, _ => Panic
  end.

(** ** The renderer *)

Definition tab : ascii := "009"%char.
Definition newline : string := String "010"%char EmptyString.

(** [fmt.Fprintln] of a [uint32] prints it in decimal. *)
Definition decimal (n : N) : string := NilZero.string_of_uint (N.to_uint n).

Fixpoint spaces (n : nat) : string :=
  match n with
  | 0 => EmptyString
  | S n' => String " " (spaces n')
  end.

(** The loop of [formatLine]; [fields[i]] panics out of range.  The inner
    loop pads [result] with spaces up to column [c]. *)
Fixpoint formatLoop (lengths : list nat) (fields : list string)
    (i c : nat) (result : string) : outcome string :=
  match lengths with
  | [] => Ok result
  | len :: lengths' =>
      match nth_error fields i with
      | None => Panic
      | Some item =>
          let result := (result ++ spaces (c - String.length result))%string in
          let result := if String.eqb item "" then result else (result ++ item ++ " ")%string in
          formatLoop lengths' fields (S i) (c + (len + 1)) result
      end
  end.

Definition formatLine (lengths : list nat) (fields : list string) : outcome string :=
  result <- formatLoop lengths fields 0 0 "" ;;
  Ok (strings.TrimRight result).

(** The Go [error] interface; [None] is [nil]. *)
Inductive error : Type := mkError (msg : string).

(** How a call that writes to the sink [w] ends: it returns, or the
    process exits in [log.Fatalf], or it panics; [w] is what the sink
    holds at that point. *)
Inductive run : Type :=
| Returned (w : string) (err : option error)
| Exited (w : string) (f : fatal)
| Panicked (w : string).

(** What one iteration of the loop of [generateZoneFileHelper] does. *)
Inductive step : Type :=
| Skip                                          (* [continue] *)
| Emit (fields : list string) (nameShort : string)
| Stop (f : fatal)
| Crash.

(** [sort.Sort] on slices of at most six elements is [insertionSort] in
    every Go release (the quick sort and the shell pass need more). *)
Fixpoint insertLeft (less : dns.RR -> dns.RR -> outcome bool) (x : dns.RR)
    (before : list dns.RR) : outcome (list dns.RR) :=
  match before with
  | [] => Ok [x]
  | y :: before' =>
      lt <- less x y ;;
      if lt then (r <- insertLeft less x before' ;; Ok (y :: r))
      else Ok (x :: y :: before')
  end.

(** [before] is the sorted prefix, nearest element first. *)
Fixpoint insertionLoop (less : dns.RR -> dns.RR -> outcome bool)
    (before todo : list dns.RR) : outcome (list dns.RR) :=
  match todo with
  | [] => Ok (rev before)
  | x :: todo' =>
      p <- insertLeft less x before ;;
      insertionLoop less p todo'
  end.

Definition insertionSort (less : dns.RR -> dns.RR -> outcome bool)
    (data : list dns.RR) : outcome (list dns.RR) :=
  insertionLoop less [] data.

(** ** The display fields in the words of the specification *)

Definition isComment (r : dns.RR) : bool :=
  match dns.Line r with
  | String c _ => Ascii.eqb c ";"
  | EmptyString => false
  end.

(** The label field in the words of the specification: empty when the
    relative label is that of the record emitted just before, the
    relative label otherwise; [last] is [None] before the first emitted
    record. *)
Definition labelField (last : option string) (rel : string) : string :=
  match last with
  | Some l => if String.eqb rel l then "" else rel
  | None => rel
  end.

(** The TTL field in the words of the specification. *)
Definition ttlField (z : zoneGenData) (r : dns.RR) (items : list string) : string :=
  if N.eqb (dns.Ttl (dns.Header r)) 0 then ""
  else if N.eqb (dns.Ttl (dns.Header r)) (DefaultTtl z) then ""
  else nth 1 items "".


Section Renderer.

(** [dnsutil.TrimDomainName] and the table [dns.TypeToString] of the DNS
    library, and [sort.Sort] with the comparator it calls. *)
Variable TrimDomainName : string -> string -> string.
Variable TypeToString : N -> string.
Variable sort_Sort :
  (dns.RR -> dns.RR -> outcome bool) -> list dns.RR -> outcome (list dns.RR).

Definition loopBody (z : zoneGenData) (i : nat) (nameShortPrevious : string)
    (rr : dns.RR) : step :=
  let line := dns.Line rr in
  match line with
  | EmptyString => Crash
  | String c _ =>
      if Ascii.eqb c ";" then Skip
      else
        let hdr := dns.Header rr in
        let items := strings.SplitN line tab 5 in
        if Nat.ltb (List.length items) 5 then Stop (TooFewItems line)
        else
          let nameShort := TrimDomainName (dns.Name hdr) (Origin z) in
          let name :=
            if Nat.ltb 0 i && String.eqb nameShort nameShortPrevious
            then "" else nameShort in
          let ttl :=
            if negb (N.eqb (dns.Ttl hdr) (DefaultTtl z))
               && negb (N.eqb (dns.Ttl hdr) 0)
            then nth 1 items "" else "" in
          if negb (N.eqb (dns.Class hdr) dns.ClassINET)
          then Stop (UnimplementedClass (nth 2 items ""))
          else
            let typeStr := TypeToString (dns.Rrtype hdr) in
            let target := nth 4 items "" in
            Emit [name; ttl; "IN"; typeStr; target] nameShort
  end.

Fixpoint emitLoop (z : zoneGenData) (rs : list dns.RR) (i : nat)
    (nameShortPrevious : string) (w : string) : run :=
  match rs with
  | [] => Returned w None
  | rr :: rs' =>
      match loopBody z i nameShortPrevious rr with
      | Skip => emitLoop z rs' (S i) nameShortPrevious w
      | Stop f => Exited w f
      | Crash => Panicked w
      | Emit fields nameShort =>
          match formatLine [10; 5; 2; 5; 0] fields with
          | Ok l => emitLoop z rs' (S i) nameShort (w ++ l ++ newline)%string
          | _ => Panicked w
          end
      end
  end.

Definition generateZoneFileHelper (z : zoneGenData) (w : string) : run :=
  match sort_Sort (lessRR (Origin z)) (Records z) with
  | Fatal f => Exited w f
  | Panic => Panicked w
  | Ok sorted =>
      let z := mkZone (Origin z) (DefaultTtl z) sorted in
      emitLoop z (Records z) 0 ""
        (w ++ "$TTL " ++ decimal (DefaultTtl z) ++ newline)%string
  end.

Definition WriteZoneFile (w : string) (records : list dns.RR)
    (origin : string) (defaultTtl : N) : run :=
  let z := mkZone origin defaultTtl [] in
  let z := fold_left
             (fun z r => mkZone (Origin z) (DefaultTtl z) (Records z ++ [r]))
             records z in
  generateZoneFileHelper z w.

(** The loop in the words of the specification: the state carried from
    line to line is the relative label of the last emitted record. *)
Fixpoint emitLoopSpec (z : zoneGenData) (rs : list dns.RR)
    (last : option string) (w : string) : run :=
  match rs with
  | [] => Returned w None
  | rr :: rs' =>
      match dns.Line rr with
      | EmptyString => Panicked w
      | String c _ =>
          if Ascii.eqb c ";" then emitLoopSpec z rs' last w
          else
            let items := strings.SplitN (dns.Line rr) tab 5 in
            if Nat.ltb (List.length items) 5
            then Exited w (TooFewItems (dns.Line rr))
            else if negb (N.eqb (dns.Class (dns.Header rr)) dns.ClassINET)
            then Exited w (UnimplementedClass (nth 2 items ""))
            else
              let rel := TrimDomainName (dns.Name (dns.Header rr)) (Origin z) in
              match formatLine [10; 5; 2; 5; 0]
                      [labelField last rel; ttlField z rr items; "IN";
                       TypeToString (dns.Rrtype (dns.Header rr)); nth 4 items ""]
              with
              | Ok l => emitLoopSpec z rs' (Some rel) (w ++ l ++ newline)%string
              | _ => Panicked w
              end
      end
  end.

End Renderer.

(** * Definitions for the properties

    ** Orders *)

Record StrictTotal {A : Type} (lt : A -> A -> bool) : Prop := {
  st_irrefl : forall x, lt x x = false;
  st_trans : forall x y z, lt x y = true -> lt y z = true -> lt x z = true;
  st_total : forall x y, lt x y = false -> lt y x = false -> x = y
}.

(** The level structure of the comparator: the first components decide
    when they differ, otherwise the second ones do. *)
Definition lexb {A B : Type} (eqA ltA : A -> A -> bool) (ltB : B -> B -> bool)
    (p q : A * B) : bool :=
  if negb (eqA (fst p) (fst q)) then ltA (fst p) (fst q)
  else ltB (snd p) (snd q).

Definition bytesLess (a b : list byte) : bool :=
  match bytes.Compare a b with Lt => true | _ => false end.

(** ** Labels and their components *)

(** The first pair of components that differ decides, if there is one. *)
Fixpoint firstDiff (xs ys : list string) : option bool :=
  match xs, ys with
  | x :: xs', y :: ys' =>
      if negb (String.eqb x y) then Some (String.ltb x y) else firstDiff xs' ys'
  | _, _ => None
  end.

Definition listLess (xs ys : list string) : bool :=
  match firstDiff xs ys with
  | Some r => r
  | None => Nat.ltb (List.length xs) (List.length ys)
  end.

(** The label rule in the words of the specification: split on dots,
    compare from the rightmost component toward the left, order by the
    first pair that differs, and otherwise the label with fewer
    components comes first. *)
Definition labelLessSpec (a b : string) : bool :=
  listLess (rev (strings.Split a ".")) (rev (strings.Split b ".")).

Fixpoint Join (l : list string) (sep : ascii) : string :=
  match l with
  | [] => EmptyString
  | [x] => x
  | x :: l' => (x ++ String sep (Join l' sep))%string
  end.

(** The rank of a label: the apex, the wildcard, any other label by its
    components from the right. *)
Definition labelKey (s : string) : nat * list string :=
  if String.eqb s "@" then (0, [])
  else if String.eqb s "*" then (1, [])
  else (2, rev (strings.Split s ".")).

(** ** The comparison key of a record *)

(** The first-level label of [Less] before and after the apex becomes "@". *)
Definition comp (origin : string) (r : dns.RR) : string :=
  dnsutil.AddOrigin (dns.Name (dns.Header r)) (origin ++ ".").

Definition normLabel (origin : string) (r : dns.RR) : string :=
  if String.eqb (comp origin r) (origin ++ ".") then "@" else comp origin r.

(** The type-specific secondary key: the four address bytes of an A
    record, the preference of an MX record, and for any other type the
    rendered line, which is the last level of [Less]. *)
Inductive secondary : Type :=
| KA (ip : list byte)
| KMX (p : N)
| KLine (s : string).

Definition secondaryKey (r : dns.RR) : outcome secondary :=
  if N.eqb (dns.Rrtype (dns.Header r)) dns.TypeA then
    ip <- assertA r ;;
    match net.To4 ip with
    | Some b => Ok (KA b)
    | None => Fatal IPsNot4Bytes
    end
  else if N.eqb (dns.Rrtype (dns.Header r)) dns.TypeMX then
    p <- assertMX r ;; Ok (KMX p)
  else Ok (KLine (dns.Line r)).

Definition hasSecondary (r : dns.RR) : Prop := exists k, secondaryKey r = Ok k.

Definition secondaryRank (k : secondary) : nat :=
  match k with KA _ => 0 | KMX _ => 1 | KLine _ => 2 end.

Definition secondaryLess (k1 k2 : secondary) : bool :=
  match k1, k2 with
  | KA x, KA y => bytesLess x y
  | KMX p, KMX q => N.ltb p q
  | KLine s, KLine t => String.ltb s t
  | _, _ => Nat.ltb (secondaryRank k1) (secondaryRank k2)
  end.

Definition primary (origin : string) (r : dns.RR) : string * N :=
  (normLabel origin r, dns.Rrtype (dns.Header r)).

Definition primaryEqb (p q : string * N) : bool :=
  String.eqb (fst p) (fst q) && N.eqb (snd p) (snd q).

Definition primaryLess : string * N -> string * N -> bool :=
  lexb String.eqb zoneLabelLess zoneRrtypeLess.

Definition recordKey (origin : string) (r : dns.RR) : (string * N) * secondary :=
  (primary origin r,
   match secondaryKey r with Ok k => k | _ => KLine "" end).

Definition keyLess : (string * N) * secondary -> (string * N) * secondary -> bool :=
  lexb primaryEqb primaryLess secondaryLess.

(** Two records neither of which is less than the other. *)
Definition incomparable (origin : string) (a b : dns.RR) : Prop :=
  lessRR origin a b = Ok false /\ lessRR origin b a = Ok false.

(** The last two levels of [Less], reached by records of one label and
    one type. *)
Definition lessTail (a b : dns.RR) : outcome bool :=
  if N.eqb (dns.Rrtype (dns.Header a)) dns.TypeA then
    ta2 <- assertA a ;;
    tb2 <- assertA b ;;
    match net.To4 ta2, net.To4 tb2 with
    | Some ipa, Some ipb =>
        Ok (match bytes.Compare ipa ipb with Lt => true | _ => false end)
    | _, _ => Fatal IPsNot4Bytes
    end
  else if N.eqb (dns.Rrtype (dns.Header a)) dns.TypeMX then
    pa <- assertMX a ;;
    pb <- assertMX b ;;
    Ok (N.ltb pa pb)
  else Ok (String.ltb (dns.Line a) (dns.Line b)).


(** The number a byte sequence stands for in network (big-endian) order. *)
Definition be32 (ip : list byte) : N :=
  fold_left (fun acc b => (acc * 256 + Byte.to_N b)%N) ip 0%N.

(** ** The records of the examples *)

(** The records of the examples: five tab-separated fields per line. *)
Definition rrLine (name ttl class type rdata : string) : string :=
  Join [name; ttl; class; type; rdata] tab.

Definition rrA (name : string) (ip : list byte) (text : string) : dns.RR :=
  dns.mkRR (dns.mkHeader name dns.TypeA dns.ClassINET 300) (dns.A ip)
    (rrLine name "300" "IN" "A" text).

Definition rrMX (name : string) (pref : N) (mx : string) : dns.RR :=
  dns.mkRR (dns.mkHeader name dns.TypeMX dns.ClassINET 300) (dns.MX pref mx)
    (rrLine name "300" "IN" "MX" (decimal pref ++ " " ++ mx)).

Definition www_10_0_0_2 : dns.RR :=
  rrA "www.example.com." [x0a; x00; x00; x02] "10.0.0.2".
Definition www_10_0_0_10 : dns.RR :=
  rrA "www.example.com." [x0a; x00; x00; x0a] "10.0.0.10".
Definition mx10_mail1 : dns.RR := rrMX "example.com." 10 "mail1.example.com.".
Definition mx10_mail2 : dns.RR := rrMX "example.com." 10 "mail2.example.com.".
Definition mx20_mail : dns.RR := rrMX "example.com." 20 "mail.example.com.".
Definition wildcard_A : dns.RR :=
  rrA "*.example.com." [xc0; x00; x02; x01] "192.0.2.1".
Definition bang_A : dns.RR :=
  rrA "!.example.com." [xc0; x00; x02; x02] "192.0.2.2".

(** ** Instances of the library functions for closed examples *)

(** The entries of [dns.TypeToString] for common types; a Go map gives
    the empty string for a key it does not hold. *)
Definition exampleTypeToString (t : N) : string :=
  match t with
  | 1 => "A" | 2 => "NS" | 5 => "CNAME" | 6 => "SOA" | 15 => "MX"
  | 16 => "TXT" | 28 => "AAAA" | 41 => "OPT"
  | _ => ""
  end%N.

Fixpoint prefixb (p l : list string) : bool :=
  match p, l with
  | [], _ => true
  | x :: p', y :: l' => String.eqb x y && prefixb p' l'
  | _ :: _, [] => false
  end.

(** The labels of a fully qualified name, outermost first. *)
Definition labelsFromRight (s : string) : list string :=
  if String.eqb s "." then []
  else match rev (strings.Split s ".") with
       | EmptyString :: r => r
       | r => r
       end.

(** [dnsutil.TrimDomainName] on names in lower case and without escaped
    dots, for which [dns.IsSubDomain] is the suffix test on labels. *)
Definition exampleTrimDomainName (s origin : string) : string :=
  if String.eqb s "" then "@"
  else if String.eqb origin "." then
    (if dns.IsFqdn s then substring 0 (String.length s - 1) s else s)
  else
    let original := s in
    let s := dns.Fqdn s in
    let origin := dns.Fqdn origin in
    if negb (prefixb (labelsFromRight origin) (labelsFromRight s)) then original
    else
      let slen := String.length s - String.length origin in
      if Nat.eqb slen 0 then "@" else substring 0 (slen - 1) s.

(** The renderer with these instances and the sort of short slices. *)
Definition exampleWriteZoneFile : string -> list dns.RR -> string -> N -> run :=
  WriteZoneFile exampleTrimDomainName exampleTypeToString insertionSort.

(** What the loop's [i] and [nameShortPrevious] say about the last
    emitted record. *)
Definition tracks (i : nat) (nameShortPrevious : string)
    (last : option string) : Prop :=
  (last = None /\ nameShortPrevious = "")
  \/ (last = Some nameShortPrevious /\ 0 < i).


Definition apex_A : dns.RR :=
  rrA "example.com." [xc0; x00; x02; x01] "192.0.2.1".



Definition apex_line : string := "@                IN A     192.0.2.1".

Definition apex_A_output : string := ("$TTL 300" ++ newline ++ apex_line ++ newline)%string.

(** ** The rest of the sort interface *)

(** [z.Len()]. *)
Definition Len (z : zoneGenData) : nat := List.length (Records z).

(** The assignment [s[i] = x] of a slice element, for [i] in range. *)
Fixpoint setNth (l : list dns.RR) (i : nat) (x : dns.RR) : list dns.RR :=
  match l, i with
  | [], _ => []
  | _ :: l', 0 => x :: l'
  | y :: l', S i' => y :: setNth l' i' x
  end.

(** [z.Swap(i, j)]: both elements are read, which panics out of range,
    and then written, [z.Records[i]] first. *)
Definition Swap (z : zoneGenData) (i j : nat) : outcome zoneGenData :=
  match nth_error (Records z) i, nth_error (Records z) j with
  | Some a, Some b =>
      Ok (mkZone (Origin z) (DefaultTtl z) (setNth (setNth (Records z) i b) j a))
  | _, _ => Panic
  end.

(** ** Counting and padding *)

(** The number of bytes of [s] equal to [c]. *)
Fixpoint countByte (c : ascii) (s : string) : nat :=
  match s with
  | EmptyString => 0
  | String x s' => (if Ascii.eqb x c then 1 else 0) + countByte c s'
  end.

(** [s] filled with spaces up to [n] columns. *)
Definition padTo (n : nat) (s : string) : string :=
  (s ++ spaces (n - String.length s))%string.

Fixpoint endsWithSpace (s : string) : bool :=
  match s with
  | EmptyString => false
  | String c EmptyString => Ascii.eqb c " "
  | String _ s' => endsWithSpace s'
  end.

(** The lines of a list, each ended by a newline, as written to the sink. *)
Fixpoint writeLines (lines : list string) : string :=
  match lines with
  | [] => EmptyString
  | l :: lines' => (l ++ newline ++ writeLines lines')%string
  end.

(** The sink of a run, however it ended. *)
Definition sink (r : run) : string :=
  match r with
  | Returned w _ => w
  | Exited w _ => w
  | Panicked w => w
  end.

(** Every field but the one of the last column is at most as long as its
    column is wide. *)
Fixpoint fits (lengths : list nat) (fields : list string) : bool :=
  match lengths, fields with
  | [], _ => true
  | len :: lengths', item :: fields' =>
      match lengths' with
      | [] => true
      | _ :: _ => Nat.leb (String.length item) len && fits lengths' fields'
      end
  | _ :: _, [] => false
  end.

(** The fields in their columns: each one filled with spaces to the
    width of its column and the space that separates it from the next. *)
Fixpoint columns (lengths : list nat) (fields : list string) : string :=
  match lengths, fields with
  | len :: lengths', item :: fields' =>
      (padTo (len + 1) item ++ columns lengths' fields')%string
  | _, _ => EmptyString
  end.

(** ** Sorted slices *)

(** [y] is not less than [x]: [x] may stand before [y]. *)
Definition notAfter (less : dns.RR -> dns.RR -> outcome bool) (x y : dns.RR) : Prop :=
  less y x = Ok false.

(** No record is less than the one just before it. *)
Fixpoint ordered (less : dns.RR -> dns.RR -> outcome bool) (l : list dns.RR) : Prop :=
  match l with
  | x :: (y :: _) as t => notAfter less x y /\ ordered less t
  | _ => True
  end.

(** The same for a prefix held nearest element first. *)
Fixpoint orderedRev (less : dns.RR -> dns.RR -> outcome bool) (l : list dns.RR) : Prop :=
  match l with
  | y :: (x :: _) as t => notAfter less x y /\ orderedRev less t
  | _ => True
  end.

(** * Properties

    ** Strict total orders given by a boolean test *)

Section OrderFacts.

Context {A : Type} (lt : A -> A -> bool) (H : StrictTotal lt).

Lemma st_asym x y : lt x y = true -> lt y x = false.
Proof.
  intros Hxy. destruct (lt y x) eqn:Hyx; trivial.
  rewrite <- (st_irrefl lt H x). symmetry. eapply st_trans; eauto.
Qed.

Lemma st_neq x y : lt x y = true -> x <> y.
Proof. intros Hxy ->. rewrite (st_irrefl lt H) in Hxy. discriminate. Qed.

(** [x <= y] and [y < z] give [x < z]. *)
Lemma st_le_lt x y z : lt y x = false -> lt y z = true -> lt x z = true.
Proof.
  intros Hyx Hyz. destruct (lt x y) eqn:Hxy.
  - eapply st_trans; eauto.
  - rewrite (st_total lt H x y Hxy Hyx). exact Hyz.
Qed.

Lemma st_lt_le x y z : lt x y = true -> lt z y = false -> lt x z = true.
Proof.
  intros Hxy Hzy. destruct (lt y z) eqn:Hyz.
  - eapply st_trans; eauto.
  - rewrite <- (st_total lt H y z Hyz Hzy). exact Hxy.
Qed.

End OrderFacts.

(** The order of [f x], for an injective [f]. *)
Lemma StrictTotal_inj {A B : Type} (lt : B -> B -> bool) (f : A -> B) :
  StrictTotal lt -> (forall x y, f x = f y -> x = y) ->
  StrictTotal (fun x y => lt (f x) (f y)).
Proof.
  intros H Hf. split.
  - intros x. apply (st_irrefl lt H).
  - intros x y z. apply (st_trans lt H).
  - intros x y Hxy Hyx. apply Hf. apply (st_total lt H); assumption.
Qed.

Lemma StrictTotal_lexb {A B : Type} (eqA ltA : A -> A -> bool) (ltB : B -> B -> bool) :
  (forall x y, eqA x y = true <-> x = y) ->
  StrictTotal ltA -> StrictTotal ltB -> StrictTotal (lexb eqA ltA ltB).
Proof.
  intros Heq HA HB.
  assert (Hrefl : forall x, eqA x x = true) by (intros x; apply Heq; reflexivity).
  split.
  - intros [a b]. unfold lexb; simpl. rewrite Hrefl. simpl. apply (st_irrefl ltB HB).
  - intros [a1 b1] [a2 b2] [a3 b3]. unfold lexb; simpl.
    destruct (eqA a1 a2) eqn:E12; simpl.
    + apply Heq in E12. subst a2.
      destruct (eqA a1 a3) eqn:E13; simpl; trivial.
      apply (st_trans ltB HB).
    + intros H12.
      destruct (eqA a2 a3) eqn:E23; simpl.
      * apply Heq in E23. subst a3. rewrite E12. simpl. trivial.
      * intros H23.
        assert (H13 : ltA a1 a3 = true) by (eapply (st_trans ltA HA); eauto).
        destruct (eqA a1 a3) eqn:E13; simpl; trivial.
        apply Heq in E13. subst a3.
        rewrite (st_irrefl ltA HA) in H13. discriminate.
  - intros [a1 b1] [a2 b2]. unfold lexb; simpl.
    destruct (eqA a1 a2) eqn:E12; simpl.
    + apply Heq in E12. subst a2. rewrite Hrefl. simpl.
      intros H1 H2. f_equal. apply (st_total ltB HB); assumption.
    + destruct (eqA a2 a1) eqn:E21; simpl.
      * apply Heq in E21. subst a2. rewrite Hrefl in E12. discriminate.
      * intros H1 H2. exfalso.
        assert (a1 = a2) by (apply (st_total ltA HA); assumption).
        subst a2. rewrite Hrefl in E12. discriminate.
Qed.

(** ** Go's order on strings, numbers and byte slices *)

Lemma ascii_compare_refl c : Ascii.compare c c = Eq.
Proof. unfold Ascii.compare. apply N.compare_refl. Qed.

Lemma string_compare_refl s : String.compare s s = Eq.
Proof.
  induction s as [|c s IH]; simpl; trivial.
  rewrite ascii_compare_refl. exact IH.
Qed.

Lemma string_compare_lt_trans s1 : forall s2 s3,
  String.compare s1 s2 = Lt -> String.compare s2 s3 = Lt ->
  String.compare s1 s3 = Lt.
Proof.
  induction s1 as [|c1 s1 IH]; intros [|c2 s2] [|c3 s3]; simpl;
    try discriminate; trivial.
  unfold Ascii.compare.
  destruct (N.compare_spec (N_of_ascii c1) (N_of_ascii c2)) as [E12|L12|G12];
    try discriminate;
  destruct (N.compare_spec (N_of_ascii c2) (N_of_ascii c3)) as [E23|L23|G23];
    try discriminate; intros H12 H23.
  - rewrite E12, E23, N.compare_refl. eapply IH; eauto.
  - rewrite E12. apply N.compare_lt_iff in L23. rewrite L23. reflexivity.
  - rewrite <- E23. apply N.compare_lt_iff in L12. rewrite L12. reflexivity.
  - assert (L13 : (N_of_ascii c1 < N_of_ascii c3)%N) by lia.
    apply N.compare_lt_iff in L13. rewrite L13. reflexivity.
Qed.

Lemma StrictTotal_string : StrictTotal String.ltb.
Proof.
  split.
  - intros s. unfold String.ltb. rewrite string_compare_refl. reflexivity.
  - intros x y z. unfold String.ltb.
    destruct (String.compare x y) eqn:Hxy; try discriminate.
    destruct (String.compare y z) eqn:Hyz; try discriminate.
    rewrite (string_compare_lt_trans _ _ _ Hxy Hyz). trivial.
  - intros x y. unfold String.ltb.
    rewrite (String.compare_antisym y x).
    destruct (String.compare x y) eqn:Hxy; simpl; try discriminate.
    intros _ _. apply String.compare_eq_iff. exact Hxy.
Qed.

Lemma StrictTotal_N : StrictTotal N.ltb.
Proof.
  split.
  - intros x. apply N.ltb_irrefl.
  - intros x y z Hxy Hyz. apply N.ltb_lt in Hxy, Hyz. apply N.ltb_lt. lia.
  - intros x y Hxy Hyx. apply N.ltb_ge in Hxy, Hyx. lia.
Qed.

Lemma StrictTotal_nat : StrictTotal Nat.ltb.
Proof.
  split.
  - intros x. apply Nat.ltb_irrefl.
  - intros x y z Hxy Hyz. apply Nat.ltb_lt in Hxy, Hyz. apply Nat.ltb_lt. lia.
  - intros x y Hxy Hyx. apply Nat.ltb_ge in Hxy, Hyx. lia.
Qed.

Lemma byte_to_N_inj x y : Byte.to_N x = Byte.to_N y -> x = y.
Proof.
  intros E. assert (S : Some x = Some y).
  { rewrite <- (Byte.of_to_N x), <- (Byte.of_to_N y), E. reflexivity. }
  congruence.
Qed.

Lemma bytes_Compare_antisym a : forall b,
  bytes.Compare a b = CompOpp (bytes.Compare b a).
Proof.
  induction a as [|x a IH]; intros [|y b]; simpl; trivial.
  rewrite (N.compare_antisym (Byte.to_N x) (Byte.to_N y)).
  destruct (N.compare (Byte.to_N x) (Byte.to_N y)); simpl; trivial.
Qed.

Lemma bytes_Compare_eq a : forall b, bytes.Compare a b = Eq -> a = b.
Proof.
  induction a as [|x a IH]; intros [|y b]; simpl; try discriminate; trivial.
  destruct (N.compare_spec (Byte.to_N x) (Byte.to_N y)) as [E|L|G];
    try discriminate.
  intros Hab. f_equal; [apply byte_to_N_inj; exact E | apply IH; exact Hab].
Qed.

Lemma bytes_Compare_refl a : bytes.Compare a a = Eq.
Proof.
  induction a as [|x a IH]; simpl; trivial. rewrite N.compare_refl. exact IH.
Qed.

Lemma bytes_Compare_lt_trans a : forall b c,
  bytes.Compare a b = Lt -> bytes.Compare b c = Lt -> bytes.Compare a c = Lt.
Proof.
  induction a as [|x a IH]; intros [|y b] [|z c]; simpl; try discriminate; trivial.
  destruct (N.compare_spec (Byte.to_N x) (Byte.to_N y)) as [E12|L12|G12];
    try discriminate;
  destruct (N.compare_spec (Byte.to_N y) (Byte.to_N z)) as [E23|L23|G23];
    try discriminate; intros H12 H23.
  - rewrite E12, E23, N.compare_refl. eapply IH; eauto.
  - rewrite E12. apply N.compare_lt_iff in L23. rewrite L23. reflexivity.
  - rewrite <- E23. apply N.compare_lt_iff in L12. rewrite L12. reflexivity.
  - assert (L13 : (Byte.to_N x < Byte.to_N z)%N) by lia.
    apply N.compare_lt_iff in L13. rewrite L13. reflexivity.
Qed.

Lemma StrictTotal_bytes : StrictTotal bytesLess.
Proof.
  split.
  - intros a. unfold bytesLess. rewrite bytes_Compare_refl. reflexivity.
  - intros x y z. unfold bytesLess.
    destruct (bytes.Compare x y) eqn:Hxy; try discriminate.
    destruct (bytes.Compare y z) eqn:Hyz; try discriminate.
    rewrite (bytes_Compare_lt_trans _ _ _ Hxy Hyz). trivial.
  - intros x y. unfold bytesLess.
    rewrite (bytes_Compare_antisym y x).
    destruct (bytes.Compare x y) eqn:Hxy; simpl; try discriminate.
    intros _ _. apply bytes_Compare_eq. exact Hxy.
Qed.

(** ** Labels: components and their order *)

Lemma Split_nonempty s sep : strings.Split s sep <> [].
Proof.
  destruct s as [|c s]; simpl; try discriminate.
  destruct (Ascii.eqb c sep); try discriminate.
  destruct (strings.Split s sep); discriminate.
Qed.

Lemma Join_Split sep s : Join (strings.Split s sep) sep = s.
Proof.
  induction s as [|c s IH]; simpl; trivial.
  destruct (Ascii.eqb_spec c sep) as [->|Hc].
  - pose proof (Split_nonempty s sep) as Hne.
    simpl. destruct (strings.Split s sep) as [|h t] eqn:E; [contradiction|].
    simpl. f_equal. exact IH.
  - pose proof (Split_nonempty s sep) as Hne.
    destruct (strings.Split s sep) as [|h t] eqn:E; [contradiction|].
    destruct t as [|h' t]; simpl in *; f_equal; exact IH.
Qed.

Lemma Split_inj sep a b : strings.Split a sep = strings.Split b sep -> a = b.
Proof.
  intros E. rewrite <- (Join_Split sep a), <- (Join_Split sep b), E. reflexivity.
Qed.

Lemma rev_inj {A : Type} (l1 l2 : list A) : rev l1 = rev l2 -> l1 = l2.
Proof.
  intros E. rewrite <- (rev_involutive l1), <- (rev_involutive l2), E. reflexivity.
Qed.

Lemma listLess_cons x xs y ys :
  listLess (x :: xs) (y :: ys) =
  if negb (String.eqb x y) then String.ltb x y else listLess xs ys.
Proof.
  unfold listLess. simpl. destruct (String.eqb x y); reflexivity.
Qed.

Lemma listLess_nil_l ys : listLess [] ys = match ys with [] => false | _ => true end.
Proof. destruct ys; reflexivity. Qed.

Lemma listLess_nil_r xs : listLess xs [] = false.
Proof. destruct xs; reflexivity. Qed.

Lemma StrictTotal_listLess : StrictTotal listLess.
Proof.
  pose proof StrictTotal_string as HS.
  split.
  - intros x. induction x as [|a x IH]; trivial.
    rewrite listLess_cons, String.eqb_refl. exact IH.
  - intros x. induction x as [|a x IH]; intros [|b y] [|c z];
      rewrite ?listLess_nil_l, ?listLess_nil_r; try discriminate; trivial.
    rewrite !listLess_cons.
    destruct (String.eqb_spec a b) as [->|Hab]; simpl.
    + destruct (String.eqb_spec b c) as [->|Hbc]; simpl; trivial. apply IH.
    + intros H1. destruct (String.eqb_spec b c) as [->|Hbc]; simpl.
      * apply String.eqb_neq in Hab. rewrite Hab. simpl. trivial.
      * intros H2.
        assert (H3 : String.ltb a c = true) by (eapply (st_trans _ HS); eauto).
        destruct (String.eqb_spec a c) as [->|Hac]; simpl; trivial.
        rewrite (st_irrefl _ HS) in H3. discriminate.
  - intros x. induction x as [|a x IH]; intros [|b y];
      rewrite ?listLess_nil_l, ?listLess_nil_r; try discriminate; trivial.
    rewrite !listLess_cons.
    destruct (String.eqb_spec a b) as [->|Hab]; simpl.
    + rewrite String.eqb_refl. simpl. intros H1 H2. f_equal. apply IH; assumption.
    + destruct (String.eqb_spec b a) as [->|_]; [contradiction|]. simpl.
      intros H1 H2. exfalso. apply Hab. apply (st_total _ HS); assumption.
Qed.

Lemma firstDiff_common c : forall x y r r',
  x <> y -> firstDiff (c ++ x :: r) (c ++ y :: r') = Some (String.ltb x y).
Proof.
  induction c as [|h c IH]; intros x y r r' Hxy; simpl.
  - apply String.eqb_neq in Hxy. rewrite Hxy. reflexivity.
  - rewrite String.eqb_refl. simpl. apply IH. exact Hxy.
Qed.

Lemma firstDiff_prefix_l l m : firstDiff l (l ++ m) = None.
Proof.
  induction l as [|h l IH]; simpl; trivial.
  rewrite String.eqb_refl. exact IH.
Qed.

Lemma firstDiff_prefix_r l m : firstDiff (l ++ m) l = None.
Proof.
  induction l as [|h l IH]; simpl.
  - destruct m; reflexivity.
  - rewrite String.eqb_refl. exact IH.
Qed.

(** The loop of [zoneLabelLess], started at the last components, finds
    the first difference from the right. *)
Lemma zoneLabelLoop_firstDiff ra : forall rb ta tb,
  zoneLabelLoop (rev ra ++ ta) (rev rb ++ tb)
    (List.length ra - 1) (List.length rb - 1)
    (Nat.min (List.length ra) (List.length rb))
  = firstDiff ra rb.
Proof.
  induction ra as [|x ra IH]; intros [|y rb] ta tb; trivial.
  cbn [List.length Nat.min zoneLabelLoop firstDiff rev].
  rewrite !Nat.sub_succ, !Nat.sub_0_r.
  rewrite <- !app_assoc.
  rewrite (app_nth2 (rev ra)), (app_nth2 (rev rb)) by (rewrite length_rev; lia).
  rewrite !length_rev, !Nat.sub_diag. simpl nth.
  destruct (negb (String.eqb x y)); [reflexivity|].
  apply IH.
Qed.

Lemma zoneLabelLess_other a b :
  a <> "@" -> b <> "@" -> a <> "*" -> b <> "*" ->
  zoneLabelLess a b = labelLessSpec a b.
Proof.
  intros Ha Hb Ha' Hb'. unfold zoneLabelLess, labelLessSpec.
  apply String.eqb_neq in Ha, Hb, Ha', Hb'. rewrite Ha, Hb, Ha', Hb'.
  destruct (String.eqb_spec a b) as [->|Hab].
  { symmetry. apply (st_irrefl _ StrictTotal_listLess). }
  pose proof (Split_nonempty a ".") as Hna.
  pose proof (Split_nonempty b ".") as Hnb.
  set (as_ := strings.Split a ".") in *. set (bs := strings.Split b ".") in *.
  assert (La : List.length as_ <> 0) by (destruct as_; simpl; congruence).
  assert (Lb : List.length bs <> 0) by (destruct bs; simpl; congruence).
  cbv zeta.
  assert (Hmin : S (if Nat.ltb (List.length as_ - 1) (List.length bs - 1)
                    then List.length as_ - 1 else List.length bs - 1)
                 = Nat.min (List.length (rev as_)) (List.length (rev bs))).
  { rewrite !length_rev.
    destruct (Nat.ltb_spec (List.length as_ - 1) (List.length bs - 1)); lia. }
  rewrite Hmin.
  pose proof (zoneLabelLoop_firstDiff (rev as_) (rev bs) [] []) as HL.
  rewrite !rev_involutive, !app_nil_r, !length_rev in HL.
  rewrite !length_rev. rewrite HL.
  unfold listLess. destruct (firstDiff (rev as_) (rev bs)); trivial.
  rewrite !length_rev.
  destruct (Nat.ltb_spec (List.length as_ - 1) (List.length bs - 1));
    destruct (Nat.ltb_spec (List.length as_) (List.length bs)); trivial; lia.
Qed.

Lemma zoneLabelLess_key a b :
  zoneLabelLess a b = lexb Nat.eqb Nat.ltb listLess (labelKey a) (labelKey b).
Proof.
  destruct (String.eqb_spec a "@") as [Ea|Ea];
  [|destruct (String.eqb_spec a "*") as [Ea'|Ea']];
  (destruct (String.eqb_spec b "@") as [Eb|Eb];
   [|destruct (String.eqb_spec b "*") as [Eb'|Eb']]); subst;
  try reflexivity.
  - unfold zoneLabelLess, labelKey, lexb.
    apply String.eqb_neq in Eb, Eb'. rewrite Eb, Eb'.
    rewrite (String.eqb_sym "@" b), Eb. reflexivity.
  - unfold zoneLabelLess, labelKey, lexb.
    apply String.eqb_neq in Eb, Eb'. rewrite Eb, Eb'.
    rewrite (String.eqb_sym "*" b), Eb'. reflexivity.
  - unfold zoneLabelLess, labelKey, lexb.
    apply String.eqb_neq in Ea, Ea'. rewrite Ea, Ea'. reflexivity.
  - unfold zoneLabelLess, labelKey, lexb.
    apply String.eqb_neq in Ea, Ea'. rewrite Ea, Ea'. reflexivity.
  - rewrite (zoneLabelLess_other a b) by assumption.
    unfold labelKey, lexb.
    apply String.eqb_neq in Ea, Ea', Eb, Eb'. rewrite Ea, Ea', Eb, Eb'.
    reflexivity.
Qed.

Lemma labelKey_inj a b : labelKey a = labelKey b -> a = b.
Proof.
  unfold labelKey.
  destruct (String.eqb_spec a "@") as [Ea|Ea];
  [|destruct (String.eqb_spec a "*") as [Ea'|Ea']];
  (destruct (String.eqb_spec b "@") as [Eb|Eb];
   [|destruct (String.eqb_spec b "*") as [Eb'|Eb']]); subst;
  try discriminate; trivial.
  intros E. injection E as E. apply rev_inj in E. apply Split_inj in E. exact E.
Qed.

Lemma StrictTotal_zoneLabelLess : StrictTotal zoneLabelLess.
Proof.
  assert (H : StrictTotal (fun a b =>
            lexb Nat.eqb Nat.ltb listLess (labelKey a) (labelKey b))).
  { apply StrictTotal_inj; [|exact labelKey_inj].
    apply StrictTotal_lexb;
      [exact Nat.eqb_eq | exact StrictTotal_nat | exact StrictTotal_listLess]. }
  destruct H as [H1 H2 H3].
  split; intros *; rewrite ?zoneLabelLess_key; eauto.
Qed.

Lemma StrictTotal_zoneRrtypeLess : StrictTotal zoneRrtypeLess.
Proof.
  unfold zoneRrtypeLess, dns.TypeSOA, dns.TypeNS.
  split.
  - intros x. rewrite N.eqb_refl. reflexivity.
  - intros x y z.
    destruct (N.eqb_spec x y), (N.eqb_spec y z), (N.eqb_spec x z),
      (N.eqb_spec x 6), (N.eqb_spec y 6), (N.eqb_spec z 6),
      (N.eqb_spec x 2), (N.eqb_spec y 2), (N.eqb_spec z 2);
      try discriminate; trivial; try lia;
      intros Hxy Hyz; apply N.ltb_lt in Hxy, Hyz; try lia;
      apply N.ltb_lt; lia.
  - intros x y.
    destruct (N.eqb_spec x y), (N.eqb_spec y x),
      (N.eqb_spec x 6), (N.eqb_spec y 6),
      (N.eqb_spec x 2), (N.eqb_spec y 2);
      try discriminate; trivial; try lia;
      intros Hxy Hyx; apply N.ltb_ge in Hxy, Hyx; lia.
Qed.

Lemma StrictTotal_secondaryLess : StrictTotal secondaryLess.
Proof.
  pose proof StrictTotal_bytes as HB. pose proof StrictTotal_N as HN.
  pose proof StrictTotal_string as HS.
  split.
  - intros [x|p|s]; simpl; [apply HB | apply HN | apply HS].
  - intros [x|p|s] [y|q|t] [z|r|u]; simpl; try discriminate; trivial;
      [apply HB | apply HN | apply HS].
  - intros [x|p|s] [y|q|t]; simpl; try discriminate;
      intros H1 H2; f_equal; [apply HB | apply HN | apply HS]; assumption.
Qed.

Lemma primaryEqb_eq p q : primaryEqb p q = true <-> p = q.
Proof.
  destruct p as [l t], q as [l' t']. unfold primaryEqb; simpl.
  rewrite andb_true_iff, String.eqb_eq, N.eqb_eq.
  split; [intros [-> ->]; reflexivity | intros E; injection E; auto].
Qed.

Lemma StrictTotal_primaryLess : StrictTotal primaryLess.
Proof.
  apply StrictTotal_lexb;
    [exact String.eqb_eq | exact StrictTotal_zoneLabelLess
     | exact StrictTotal_zoneRrtypeLess].
Qed.

Lemma StrictTotal_keyLess : StrictTotal keyLess.
Proof.
  apply StrictTotal_lexb;
    [exact primaryEqb_eq | exact StrictTotal_primaryLess
     | exact StrictTotal_secondaryLess].
Qed.

Lemma string_app_assoc (a b c : string) : ((a ++ b) ++ c = a ++ b ++ c)%string.
Proof. induction a as [|x a IH]; simpl; [reflexivity | rewrite IH; reflexivity]. Qed.

Lemma IsFqdn_app_dot s : dns.IsFqdn (s ++ ".") = true.
Proof.
  induction s as [|c s IH]; trivial.
  simpl. destruct (s ++ ".")%string eqn:E; [destruct s; discriminate|exact IH].
Qed.

Lemma IsFqdn_AddOrigin s o : dns.IsFqdn (dnsutil.AddOrigin s (o ++ ".")) = true.
Proof.
  unfold dnsutil.AddOrigin.
  destruct (dns.IsFqdn s) eqn:Hs; trivial.
  destruct (String.eqb_spec (o ++ ".") "") as [E|_]; [destruct o; discriminate|].
  destruct (String.eqb s "@" || String.eqb s ""); [apply IsFqdn_app_dot|].
  destruct (String.eqb (o ++ ".") ".").
  - unfold dns.Fqdn. rewrite Hs. apply IsFqdn_app_dot.
  - replace (s ++ "." ++ o ++ ".")%string with ((s ++ "." ++ o) ++ ".")%string.
    + apply IsFqdn_app_dot.
    + rewrite !string_app_assoc. reflexivity.
Qed.

(** A label on the first level is never the literal "@" or "*": it ends
    in a dot. *)
Lemma comp_not_special origin r : comp origin r <> "@" /\ comp origin r <> "*".
Proof.
  pose proof (IsFqdn_AddOrigin (dns.Name (dns.Header r)) origin) as H.
  fold (comp origin r) in H.
  split; intros E; rewrite E in H; discriminate.
Qed.

Lemma normLabel_eq origin a b :
  normLabel origin a = normLabel origin b <-> comp origin a = comp origin b.
Proof.
  unfold normLabel.
  destruct (comp_not_special origin a) as [Ha _].
  destruct (comp_not_special origin b) as [Hb _].
  destruct (String.eqb_spec (comp origin a) (origin ++ ".")) as [Ea|Ea];
  destruct (String.eqb_spec (comp origin b) (origin ++ ".")) as [Eb|Eb];
    split; intros E; try congruence.
Qed.

Lemma lessRR_levels origin a b :
  lessRR origin a b =
  if negb (String.eqb (normLabel origin a) (normLabel origin b))
  then Ok (zoneLabelLess (normLabel origin a) (normLabel origin b))
  else if negb (N.eqb (dns.Rrtype (dns.Header a)) (dns.Rrtype (dns.Header b)))
  then Ok (zoneRrtypeLess (dns.Rrtype (dns.Header a)) (dns.Rrtype (dns.Header b)))
  else lessTail a b.
Proof.
  unfold lessRR. fold (comp origin a) (comp origin b).
  destruct (String.eqb_spec (comp origin a) (comp origin b)) as [E|E].
  - apply normLabel_eq in E. rewrite E, String.eqb_refl. reflexivity.
  - destruct (String.eqb_spec (normLabel origin a) (normLabel origin b)) as [E'|_].
    + apply normLabel_eq in E'. contradiction.
    + reflexivity.
Qed.

Lemma lessTail_Ok a b r :
  dns.Rrtype (dns.Header a) = dns.Rrtype (dns.Header b) ->
  lessTail a b = Ok r <->
  exists ka kb, secondaryKey a = Ok ka /\ secondaryKey b = Ok kb
                /\ r = secondaryLess ka kb.
Proof.
  intros Hty. unfold lessTail, secondaryKey, assertA, assertMX. rewrite <- Hty.
  destruct (N.eqb (dns.Rrtype (dns.Header a)) dns.TypeA).
  - destruct (dns.Body a) as [ipa|pa ma|], (dns.Body b) as [ipb|pb mb|]; simpl;
      try (split; [discriminate | intros (ka & kb & H1 & H2 & _); discriminate]).
    destruct (net.To4 ipa) as [xa|], (net.To4 ipb) as [xb|];
      try (split; [discriminate | intros (ka & kb & H1 & H2 & _); discriminate]).
    split.
    + intros E. injection E as <-. exists (KA xa), (KA xb). auto.
    + intros (ka & kb & H1 & H2 & ->). injection H1 as <-. injection H2 as <-.
      reflexivity.
  - destruct (N.eqb (dns.Rrtype (dns.Header a)) dns.TypeMX).
    + destruct (dns.Body a) as [ipa|pa ma|], (dns.Body b) as [ipb|pb mb|]; simpl;
        try (split; [discriminate | intros (ka & kb & H1 & H2 & _); discriminate]).
      split.
      * intros E. injection E as <-. exists (KMX pa), (KMX pb). auto.
      * intros (ka & kb & H1 & H2 & ->). injection H1 as <-. injection H2 as <-.
        reflexivity.
    + split.
      * intros E. injection E as <-.
        exists (KLine (dns.Line a)), (KLine (dns.Line b)). auto.
      * intros (ka & kb & H1 & H2 & ->). injection H1 as <-. injection H2 as <-.
        reflexivity.
Qed.

(** [Less] returns exactly when the two records differ in label or type
    or both have a secondary key, and then it is the order of the keys. *)
Lemma lessRR_Ok_iff origin a b r :
  lessRR origin a b = Ok r <->
  r = keyLess (recordKey origin a) (recordKey origin b)
  /\ (primary origin a = primary origin b -> hasSecondary a /\ hasSecondary b).
Proof.
  rewrite lessRR_levels.
  unfold keyLess, recordKey, lexb, primaryLess, lexb, primaryEqb, primary.
  cbn [fst snd].
  destruct (String.eqb_spec (normLabel origin a) (normLabel origin b)) as [El|El];
    cbn [negb andb].
  - destruct (N.eqb_spec (dns.Rrtype (dns.Header a)) (dns.Rrtype (dns.Header b)))
      as [Et|Et]; cbn [negb].
    + rewrite (lessTail_Ok a b r Et). split.
      * intros (ka & kb & Ha & Hb & ->). rewrite Ha, Hb.
        split; [reflexivity|]. intros _. split; eexists; eauto.
      * intros [-> Hdef]. destruct Hdef as [[ka Ha] [kb Hb]].
        { rewrite El, Et. reflexivity. }
        exists ka, kb. rewrite Ha, Hb. auto.
    + split.
      * intros E. injection E as <-. split; [reflexivity|].
        intros E. injection E as _ E. contradiction.
      * intros [-> _]. reflexivity.
  - split.
    + intros E. injection E as <-. split; [reflexivity|].
      intros E. injection E as E _. contradiction.
    + intros [-> _]. reflexivity.
Qed.

Lemma keyLess_primary k1 k2 :
  keyLess k1 k2 = true -> fst k1 = fst k2 \/ primaryLess (fst k1) (fst k2) = true.
Proof.
  unfold keyLess, lexb.
  destruct (primaryEqb (fst k1) (fst k2)) eqn:E; simpl.
  - left. apply primaryEqb_eq. exact E.
  - right. assumption.
Qed.

Lemma recordKey_fst origin r : fst (recordKey origin r) = primary origin r.
Proof. reflexivity. Qed.

(** ** The comparator is a strict weak ordering *)

Lemma lessRR_irrefl origin a : lessRR origin a a <> Ok true.
Proof.
  intros H. apply lessRR_Ok_iff in H. destruct H as [H _].
  rewrite (st_irrefl _ StrictTotal_keyLess) in H. discriminate.
Qed.

Lemma lessRR_asym origin a b :
  lessRR origin a b = Ok true -> lessRR origin b a = Ok false.
Proof.
  intros H. apply lessRR_Ok_iff in H. destruct H as [H Hdef].
  apply lessRR_Ok_iff. split.
  - symmetry. apply (st_asym _ StrictTotal_keyLess). symmetry. exact H.
  - intros E. symmetry in E. destruct (Hdef E). auto.
Qed.

Lemma lessRR_trans origin a b c :
  lessRR origin a b = Ok true -> lessRR origin b c = Ok true ->
  lessRR origin a c = Ok true.
Proof.
  intros Hab Hbc.
  apply lessRR_Ok_iff in Hab. destruct Hab as [Hab Dab].
  apply lessRR_Ok_iff in Hbc. destruct Hbc as [Hbc Dbc].
  symmetry in Hab, Hbc.
  apply lessRR_Ok_iff. split.
  - symmetry. eapply (st_trans _ StrictTotal_keyLess); eauto.
  - intros Eac.
    pose proof StrictTotal_primaryLess as HP.
    destruct (keyLess_primary _ _ Hab) as [Eab|Lab];
      rewrite !recordKey_fst in *.
    + destruct (Dab Eab) as [Ha _].
      assert (Ebc : primary origin b = primary origin c) by congruence.
      destruct (Dbc Ebc) as [_ Hc]. auto.
    + exfalso.
      destruct (keyLess_primary _ _ Hbc) as [Ebc|Lbc];
        rewrite !recordKey_fst in *.
      * rewrite Ebc, <- Eac, (st_irrefl _ HP) in Lab. discriminate.
      * rewrite <- Eac in Lbc.
        rewrite (st_asym _ HP _ _ Lab) in Lbc. discriminate.
Qed.

Lemma incomparable_key origin a b :
  incomparable origin a b <->
  recordKey origin a = recordKey origin b /\ hasSecondary a /\ hasSecondary b.
Proof.
  unfold incomparable. rewrite !lessRR_Ok_iff. split.
  - intros [[H1 D1] [H2 _]].
    assert (E : recordKey origin a = recordKey origin b)
      by (apply (st_total _ StrictTotal_keyLess); auto).
    split; [exact E|]. apply D1.
    rewrite <- !recordKey_fst, E. reflexivity.
  - intros (E & Ha & Hb). rewrite E, (st_irrefl _ StrictTotal_keyLess). auto.
Qed.

Lemma incomparable_trans origin a b c :
  incomparable origin a b -> incomparable origin b c -> incomparable origin a c.
Proof.
  rewrite !incomparable_key.
  intros (E1 & Ha & _) (E2 & _ & Hc). split; [congruence | auto].
Qed.

(** C1. For every origin and all records a, b, c the comparator is a
    strict weak ordering: a record is never less than itself; when a is
    less than b, b is not less than a (the comparison of b with a returns,
    and says no: b is greater); being less is transitive; and being
    incomparable (neither is less than the other) is transitive. *)
Theorem Less_strict_weak_ordering (origin : string) (a b c : dns.RR) :
  lessRR origin a a <> Ok true
  /\ (lessRR origin a b = Ok true -> lessRR origin b a = Ok false)
  /\ (lessRR origin a b = Ok true -> lessRR origin b c = Ok true ->
      lessRR origin a c = Ok true)
  /\ (incomparable origin a b -> incomparable origin b c ->
      incomparable origin a c).
Proof.
  split; [apply lessRR_irrefl|].
  split; [apply lessRR_asym|].
  split; [apply lessRR_trans | apply incomparable_trans].
Qed.

(** ** The label level *)

Lemma rev_split_at (la : list string) x suffix :
  rev (la ++ x :: suffix) = rev suffix ++ x :: rev la.
Proof. rewrite rev_app_distr. simpl. rewrite <- app_assoc. reflexivity. Qed.

(** C5. For distinct labels a and b, neither "@" nor "*", [zoneLabelLess]
    is the comparison of the dot-separated components from the right:
    it agrees with the rule as the specification words it; when the
    components right of some position agree (suffix) and the pair at that
    position differs, that pair's string comparison is the answer; and
    when the components of one label are a right-aligned suffix of the
    other's, the label with fewer components is the smaller one. *)
Theorem zoneLabelLess_components (a b : string) :
  a <> b -> a <> "@" -> b <> "@" -> a <> "*" -> b <> "*" ->
  zoneLabelLess a b = labelLessSpec a b
  /\ (forall la lb x y suffix,
        strings.Split a "." = la ++ x :: suffix ->
        strings.Split b "." = lb ++ y :: suffix ->
        x <> y -> zoneLabelLess a b = String.ltb x y)
  /\ (forall more, more <> [] ->
        strings.Split b "." = more ++ strings.Split a "." ->
        zoneLabelLess a b = true)
  /\ (forall more, more <> [] ->
        strings.Split a "." = more ++ strings.Split b "." ->
        zoneLabelLess a b = false).
Proof.
  intros Hab Ha Hb Ha' Hb'.
  rewrite (zoneLabelLess_other a b Ha Hb Ha' Hb').
  split; [reflexivity|]. unfold labelLessSpec, listLess.
  split; [|split].
  - intros la lb x y suffix Ea Eb Hxy.
    rewrite Ea, Eb, !rev_split_at, (firstDiff_common _ _ _ _ _ Hxy). reflexivity.
  - intros more Hm Eb. rewrite Eb, rev_app_distr, firstDiff_prefix_l.
    rewrite length_app, !length_rev. apply Nat.ltb_lt.
    destruct more; [contradiction | simpl; lia].
  - intros more Hm Ea. rewrite Ea, rev_app_distr, firstDiff_prefix_r.
    rewrite length_app, !length_rev. apply Nat.ltb_ge. lia.
Qed.

Lemma zoneLabelLess_components_witness :
  zoneLabelLess "www.example.com." "mail.example.com."
  = labelLessSpec "www.example.com." "mail.example.com."
  /\ zoneLabelLess "www.example.com." "mail.example.com." = false.
Proof.
  split; [|reflexivity].
  apply (zoneLabelLess_components "www.example.com." "mail.example.com.");
    discriminate.
Defined.

(** The apex comes first: a record at the origin is less than a record
    at any other name, and none is less than it. *)
Lemma lessRR_apex origin a b :
  comp origin a = (origin ++ ".")%string ->
  comp origin b <> (origin ++ ".")%string ->
  lessRR origin a b = Ok true /\ lessRR origin b a = Ok false.
Proof.
  intros Ha Hb.
  assert (Na : normLabel origin a = "@").
  { unfold normLabel. rewrite Ha, String.eqb_refl. reflexivity. }
  assert (Nb : normLabel origin b = comp origin b).
  { unfold normLabel. apply String.eqb_neq in Hb. rewrite Hb. reflexivity. }
  destruct (comp_not_special origin b) as [Hb' _].
  rewrite !lessRR_levels, Na, Nb.
  apply String.eqb_neq in Hb'. rewrite Hb', (String.eqb_sym "@"), Hb'.
  unfold zoneLabelLess. rewrite Hb', (String.eqb_sym "@"), Hb'. simpl. auto.
Qed.

(** ** The type level *)



(** ** The secondary keys of A and MX records *)

Lemma To4_length ip x : net.To4 ip = Some x -> List.length x = 4.
Proof.
  unfold net.To4.
  destruct (Nat.eqb_spec (List.length ip) 4) as [E|_].
  - intros H. injection H as <-. exact E.
  - destruct (Nat.eqb_spec (List.length ip) 16) as [E|_]; [|discriminate].
    assert (L : List.length (firstn 4 (skipn 12 ip)) = 4)
      by (rewrite length_firstn, length_skipn, E; reflexivity).
    destruct (_ && _); [|discriminate].
    intros H. injection H as <-. exact L.
Qed.

Lemma bytesLess_be32 x y :
  List.length x = 4 -> List.length y = 4 ->
  bytesLess x y = N.ltb (be32 x) (be32 y).
Proof.
  destruct x as [|x0 [|x1 [|x2 [|x3 [|]]]]]; try discriminate.
  destruct y as [|y0 [|y1 [|y2 [|y3 [|]]]]]; try discriminate.
  intros _ _. unfold bytesLess, be32. simpl.
  pose proof (Byte.to_N_bounded x0). pose proof (Byte.to_N_bounded x1).
  pose proof (Byte.to_N_bounded x2). pose proof (Byte.to_N_bounded x3).
  pose proof (Byte.to_N_bounded y0). pose proof (Byte.to_N_bounded y1).
  pose proof (Byte.to_N_bounded y2). pose proof (Byte.to_N_bounded y3).
  destruct (N.compare_spec (Byte.to_N x0) (Byte.to_N y0));
  [destruct (N.compare_spec (Byte.to_N x1) (Byte.to_N y1));
   [destruct (N.compare_spec (Byte.to_N x2) (Byte.to_N y2));
    [destruct (N.compare_spec (Byte.to_N x3) (Byte.to_N y3))|..]|..]|..];
  symmetry; first [apply N.ltb_lt; lia | apply N.ltb_ge; lia].
Qed.

Lemma lessRR_A origin a b ipa ipb xa xb :
  comp origin a = comp origin b ->
  dns.Rrtype (dns.Header a) = dns.TypeA ->
  dns.Rrtype (dns.Header b) = dns.TypeA ->
  dns.Body a = dns.A ipa -> dns.Body b = dns.A ipb ->
  net.To4 ipa = Some xa -> net.To4 ipb = Some xb ->
  lessRR origin a b = Ok (bytesLess xa xb).
Proof.
  intros Hc Ta Tb Ba Bb Xa Xb. rewrite lessRR_levels.
  apply normLabel_eq in Hc. rewrite Hc, String.eqb_refl, Ta, Tb.
  unfold lessTail, assertA. rewrite Ta, Ba, Bb. simpl. rewrite Xa, Xb.
  reflexivity.
Qed.

Lemma lessRR_MX origin a b pa ma pb mb :
  comp origin a = comp origin b ->
  dns.Rrtype (dns.Header a) = dns.TypeMX ->
  dns.Rrtype (dns.Header b) = dns.TypeMX ->
  dns.Body a = dns.MX pa ma -> dns.Body b = dns.MX pb mb ->
  lessRR origin a b = Ok (N.ltb pa pb).
Proof.
  intros Hc Ta Tb Ba Bb. rewrite lessRR_levels.
  apply normLabel_eq in Hc. rewrite Hc, String.eqb_refl, Ta, Tb.
  unfold lessTail, assertMX. rewrite Ta, Ba, Bb. reflexivity.
Qed.

(** C7. Among records of one label: two A records whose addresses
    reduce to four bytes are ordered by those bytes compared as unsigned
    bytes from the first, which is the order of the addresses as numbers
    in network order, so that 10.0.0.2 comes before 10.0.0.10 although
    the strings compare the other way; two MX records are ordered by
    ascending preference, 10 before 20. *)
Theorem Less_A_MX_secondary (origin : string) (a b : dns.RR) :
  comp origin a = comp origin b ->
  (forall ipa ipb xa xb,
      dns.Rrtype (dns.Header a) = dns.TypeA ->
      dns.Rrtype (dns.Header b) = dns.TypeA ->
      dns.Body a = dns.A ipa -> dns.Body b = dns.A ipb ->
      net.To4 ipa = Some xa -> net.To4 ipb = Some xb ->
      lessRR origin a b = Ok (bytesLess xa xb)
      /\ bytesLess xa xb = N.ltb (be32 xa) (be32 xb))
  /\ (forall pa ma pb mb,
      dns.Rrtype (dns.Header a) = dns.TypeMX ->
      dns.Rrtype (dns.Header b) = dns.TypeMX ->
      dns.Body a = dns.MX pa ma -> dns.Body b = dns.MX pb mb ->
      lessRR origin a b = Ok (N.ltb pa pb))
  /\ lessRR "example.com" www_10_0_0_2 www_10_0_0_10 = Ok true
  /\ String.ltb "10.0.0.2" "10.0.0.10" = false
  /\ lessRR "example.com" mx10_mail1 mx20_mail = Ok true
  /\ lessRR "example.com" mx20_mail mx10_mail1 = Ok false.
Proof.
  intros Hc. split; [|split].
  - intros ipa ipb xa xb Ta Tb Ba Bb Xa Xb. split.
    + eapply lessRR_A; eassumption.
    + apply bytesLess_be32; eapply To4_length; eassumption.
  - intros pa ma pb mb. apply lessRR_MX. exact Hc.
  - repeat split; reflexivity.
Qed.

Lemma Less_A_MX_secondary_witness :
  lessRR "example.com" www_10_0_0_2 www_10_0_0_10
  = Ok (bytesLess [x0a; x00; x00; x02] [x0a; x00; x00; x0a])
  /\ bytesLess [x0a; x00; x00; x02] [x0a; x00; x00; x0a]
     = N.ltb (be32 [x0a; x00; x00; x02]) (be32 [x0a; x00; x00; x0a]).
Proof.
  refine (proj1 (Less_A_MX_secondary "example.com" www_10_0_0_2 www_10_0_0_10
                   eq_refl) _ _ _ _ _ _ _ _ _ _); reflexivity.
Defined.

(** ** Ties on the secondary key, and the wildcard *)

Lemma lessRR_MX_tie origin a b p ma mb :
  comp origin a = comp origin b ->
  dns.Rrtype (dns.Header a) = dns.TypeMX ->
  dns.Rrtype (dns.Header b) = dns.TypeMX ->
  dns.Body a = dns.MX p ma -> dns.Body b = dns.MX p mb ->
  lessRR origin a b = Ok false /\ lessRR origin b a = Ok false.
Proof.
  intros Hc Ta Tb Ba Bb.
  rewrite (lessRR_MX origin a b p ma p mb), (lessRR_MX origin b a p mb p ma),
    N.ltb_irrefl; auto.
Qed.

(** C3, the code at the failing input: two MX records of the apex with
    preference 10 and the exchanges mail1 and mail2.  Their rendered
    lines differ and the first is the smaller string, yet neither record
    is less than the other: [Less] returns the comparison of the
    preferences and does not go on to the rendered lines. *)
Theorem Less_MX_tie_stays_tied :
  dns.Line mx10_mail1 <> dns.Line mx10_mail2
  /\ String.ltb (dns.Line mx10_mail1) (dns.Line mx10_mail2) = true
  /\ lessRR "example.com" mx10_mail1 mx10_mail2 = Ok false
  /\ lessRR "example.com" mx10_mail2 mx10_mail1 = Ok false.
Proof. repeat split; [discriminate | reflexivity..]. Qed.

(** C4, the code at the failing input: the wildcard record
    "*.example.com." and the record "!.example.com." of the zone
    example.com.  The first-level labels are the full names, so the
    wildcard is never the literal "*" and is compared component by
    component: "!" is the smaller string, and the wildcard is not less. *)
Theorem Less_wildcard_not_first :
  comp "example.com" wildcard_A = "*.example.com."
  /\ comp "example.com" bang_A = "!.example.com."
  /\ lessRR "example.com" wildcard_A bang_A = Ok false
  /\ lessRR "example.com" bang_A wildcard_A = Ok true.
Proof. repeat split; reflexivity. Qed.

(** C2, the code at the failing input: the two MX records of preference
    10 in the two possible orders.  The sort leaves each order as it
    found it, and the two renderings differ. *)
Theorem render_depends_on_input_order :
  Permutation [mx10_mail1; mx10_mail2] [mx10_mail2; mx10_mail1]
  /\ insertionSort (lessRR "example.com") [mx10_mail1; mx10_mail2]
     = Ok [mx10_mail1; mx10_mail2]
  /\ insertionSort (lessRR "example.com") [mx10_mail2; mx10_mail1]
     = Ok [mx10_mail2; mx10_mail1]
  /\ exampleWriteZoneFile "" [mx10_mail1; mx10_mail2] "example.com" 3600
     <> exampleWriteZoneFile "" [mx10_mail2; mx10_mail1] "example.com" 3600.
Proof.
  split; [apply perm_swap|].
  split; [reflexivity|]. split; [reflexivity|].
  vm_compute. discriminate.
Qed.

(** ** The lines the renderer emits *)

Section RendererFacts.

Variable TrimDomainName : string -> string -> string.
Variable TypeToString : N -> string.
Variable sort_Sort :
  (dns.RR -> dns.RR -> outcome bool) -> list dns.RR -> outcome (list dns.RR).

Lemma tracks_label i prev last rel :
  tracks i prev last ->
  (if Nat.ltb 0 i && String.eqb rel prev then "" else rel) = labelField last rel.
Proof.
  intros [[-> ->]|[-> Hi]]; simpl.
  - destruct (Nat.ltb 0 i); simpl; trivial.
    destruct (String.eqb_spec rel ""); congruence.
  - apply Nat.ltb_lt in Hi. rewrite Hi. reflexivity.
Qed.

Lemma ttlField_code z r items :
  (if negb (N.eqb (dns.Ttl (dns.Header r)) (DefaultTtl z))
      && negb (N.eqb (dns.Ttl (dns.Header r)) 0)
   then nth 1 items "" else "") = ttlField z r items.
Proof.
  unfold ttlField.
  destruct (N.eqb (dns.Ttl (dns.Header r)) (DefaultTtl z)),
    (N.eqb (dns.Ttl (dns.Header r)) 0); reflexivity.
Qed.

Lemma emitLoop_tracks z rs : forall i prev last w,
  tracks i prev last -> emitLoop TrimDomainName TypeToString z rs i prev w = emitLoopSpec TrimDomainName TypeToString z rs last w.
Proof.
  induction rs as [|rr rs IH]; intros i prev last w Htr; trivial.
  cbn [emitLoop emitLoopSpec]. unfold loopBody.
  destruct (dns.Line rr) as [|c line'] eqn:El; trivial.
  destruct (Ascii.eqb c ";").
  - apply IH. destruct Htr as [H|[H Hi]]; [left; exact H | right; split; [exact H | lia]].
  - cbv zeta.
    destruct (Nat.ltb (List.length (strings.SplitN (String c line') tab 5)) 5); trivial.
    destruct (negb (N.eqb (dns.Class (dns.Header rr)) dns.ClassINET)); trivial.
    rewrite (tracks_label _ _ _ _ Htr). rewrite <- El, ttlField_code.
    destruct (formatLine _ _); trivial.
    apply IH. right. split; [reflexivity | lia].
Qed.

(** C8. The loop of the renderer, run over the sorted records, is the
    loop of the specification: a record whose line begins with ';' is
    skipped, emitting nothing and leaving the remembered label as it was;
    the label field of an emitted record is empty when its relative label
    is that of the record emitted just before it and is the relative
    label otherwise (so, for a non-empty relative label, empty exactly in
    that case), and the relative label is then the remembered one; the
    TTL field holds the TTL only when it is neither zero nor the default
    TTL and is empty otherwise. *)
Theorem emitLoop_display_fields (z : zoneGenData) (rs : list dns.RR) (w : string) :
  emitLoop TrimDomainName TypeToString z rs 0 "" w = emitLoopSpec TrimDomainName TypeToString z rs None w
  /\ (forall rr last w', isComment rr = true ->
        emitLoopSpec TrimDomainName TypeToString z (rr :: rs) last w' = emitLoopSpec TrimDomainName TypeToString z rs last w')
  /\ (forall rel, labelField (Some rel) rel = "")
  /\ (forall last rel, last <> Some rel -> labelField last rel = rel)
  /\ (forall last rel, rel <> "" -> (labelField last rel = "" <-> last = Some rel))
  /\ (forall rr items,
        ttlField z rr items <> "" ->
        ttlField z rr items = nth 1 items ""
        /\ dns.Ttl (dns.Header rr) <> 0%N
        /\ dns.Ttl (dns.Header rr) <> DefaultTtl z)
  /\ (forall rr items,
        dns.Ttl (dns.Header rr) <> 0%N ->
        dns.Ttl (dns.Header rr) <> DefaultTtl z ->
        ttlField z rr items = nth 1 items "").
Proof.
  split; [apply emitLoop_tracks; left; auto|].
  split.
  { intros rr last w'. unfold isComment. cbn [emitLoopSpec].
    destruct (dns.Line rr); [discriminate|]. intros ->. reflexivity. }
  split.
  { intros rel. simpl. rewrite String.eqb_refl. reflexivity. }
  assert (L : forall last rel, last <> Some rel -> labelField last rel = rel).
  { intros [l|] rel Hl; simpl; trivial.
    destruct (String.eqb_spec rel l); congruence. }
  split; [exact L|].
  split.
  { intros last rel Hrel. split.
    - intros E. destruct last as [l|]; simpl in E; [|congruence].
      destruct (String.eqb_spec rel l); congruence.
    - intros ->. simpl. rewrite String.eqb_refl. reflexivity. }
  unfold ttlField. split.
  - intros rr items.
    destruct (N.eqb_spec (dns.Ttl (dns.Header rr)) 0); [congruence|].
    destruct (N.eqb_spec (dns.Ttl (dns.Header rr)) (DefaultTtl z)); [congruence|].
    auto.
  - intros rr items H0 Hd.
    apply N.eqb_neq in H0, Hd. rewrite H0, Hd. reflexivity.
Qed.

(** ** How the render ends *)


Lemma copy_records (records : list dns.RR) : forall z,
  fold_left (fun z r => mkZone (Origin z) (DefaultTtl z) (Records z ++ [r]))
    records z
  = mkZone (Origin z) (DefaultTtl z) (Records z ++ records).
Proof.
  induction records as [|r records IH]; intros [o t rs]; simpl.
  - rewrite app_nil_r. reflexivity.
  - rewrite IH. simpl. rewrite <- app_assoc. reflexivity.
Qed.

Lemma WriteZoneFile_unfold w records origin defaultTtl :
  WriteZoneFile TrimDomainName TypeToString sort_Sort w records origin defaultTtl
  = match sort_Sort (lessRR origin) records with
    | Fatal f => Exited w f
    | Panic => Panicked w
    | Ok sorted =>
        emitLoop TrimDomainName TypeToString (mkZone origin defaultTtl sorted)
          sorted 0 "" (w ++ "$TTL " ++ decimal defaultTtl ++ newline)
    end.
Proof.
  unfold WriteZoneFile. rewrite copy_records. reflexivity.
Qed.





Lemma emitLoop_error_nil z rs : forall i prev w w' err,
  emitLoop TrimDomainName TypeToString z rs i prev w = Returned w' err ->
  err = None.
Proof.
  induction rs as [|rr rs IH]; intros i prev w w' err; cbn [emitLoop].
  - intros E. injection E as _ <-. reflexivity.
  - destruct (loopBody TrimDomainName TypeToString z i prev rr);
      try discriminate; [apply IH|].
    destruct (formatLine _ _); try discriminate. apply IH.
Qed.

(** C10. Whenever [WriteZoneFile] returns to its caller, the error it
    returns is nil: the failures (a class other than INET, a line of
    fewer than five fields, an A address that is not four bytes) end the
    process and are never reported through the error value. *)
Theorem WriteZoneFile_error_nil (w : string) (records : list dns.RR)
    (origin : string) (defaultTtl : N) (w' : string) (err : option error) :
  WriteZoneFile TrimDomainName TypeToString sort_Sort w records origin defaultTtl
  = Returned w' err ->
  err = None.
Proof.
  rewrite WriteZoneFile_unfold.
  destruct (sort_Sort (lessRR origin) records); try discriminate.
  apply emitLoop_error_nil.
Qed.

End RendererFacts.


Lemma WriteZoneFile_error_nil_witness :
  exampleWriteZoneFile "" [apex_A] "example.com" 300 = Returned apex_A_output None
  /\ (None : option error) = None.
Proof.
  split; [reflexivity|].
  apply (WriteZoneFile_error_nil exampleTrimDomainName exampleTypeToString
           insertionSort "" [apex_A] "example.com" 300 apex_A_output None).
  reflexivity.
Defined.

(** The sort of short slices returns the records it was given, in some
    order, whenever it returns. *)
Lemma insertLeft_Permutation less x : forall before p,
  insertLeft less x before = Ok p -> Permutation (x :: before) p.
Proof.
  induction before as [|y before IH]; intros p; simpl.
  - intros E. injection E as <-. apply Permutation_refl.
  - destruct (less x y) as [[|]| |]; simpl; try discriminate.
    + destruct (insertLeft less x before) as [r| |]; simpl; try discriminate.
      intros E. injection E as <-.
      eapply perm_trans; [apply perm_swap|]. apply perm_skip. apply IH. reflexivity.
    + intros E. injection E as <-. apply Permutation_refl.
Qed.

Lemma insertionLoop_Permutation less todo : forall before sorted,
  insertionLoop less before todo = Ok sorted ->
  Permutation (rev before ++ todo) sorted.
Proof.
  induction todo as [|x todo IH]; intros before sorted; simpl.
  - intros E. injection E as <-. rewrite app_nil_r. apply Permutation_refl.
  - destruct (insertLeft less x before) as [p| |] eqn:Ep; simpl; try discriminate.
    intros E. apply IH in E. apply insertLeft_Permutation in Ep.
    eapply perm_trans; [|exact E].
    apply Permutation_sym. eapply perm_trans.
    + apply Permutation_app_tail. apply Permutation_sym. apply Permutation_rev.
    + eapply perm_trans;
        [apply Permutation_app_tail; apply Permutation_sym; exact Ep|].
      simpl. eapply perm_trans; [|apply Permutation_middle].
      apply perm_skip. apply Permutation_app_tail. apply Permutation_rev.
Qed.

Lemma insertionSort_Permutation less data sorted :
  insertionSort less data = Ok sorted -> Permutation data sorted.
Proof. intros E. apply insertionLoop_Permutation in E. exact E. Qed.


(** * Further properties of the code

    ** The label and type orders *)

(** [zoneLabelLess] is a strict total order on all strings, with "@" as
    its least element and "*" as the least of the others. *)
Theorem zoneLabelLess_total_order (a b c : string) :
  zoneLabelLess a a = false
  /\ (zoneLabelLess a b = true -> zoneLabelLess b a = false)
  /\ (zoneLabelLess a b = true -> zoneLabelLess b c = true ->
      zoneLabelLess a c = true)
  /\ (a <> b -> zoneLabelLess a b = true \/ zoneLabelLess b a = true)
  /\ (a <> "@" -> zoneLabelLess "@" a = true)
  /\ (a <> "@" -> a <> "*" -> zoneLabelLess "*" a = true).
Proof.
  pose proof StrictTotal_zoneLabelLess as H.
  split; [apply (st_irrefl _ H)|].
  split; [apply (st_asym _ H)|].
  split; [apply (st_trans _ H)|].
  split.
  { intros Hab.
    destruct (zoneLabelLess a b) eqn:E1; [left; reflexivity|].
    destruct (zoneLabelLess b a) eqn:E2; [right; reflexivity|].
    exfalso. apply Hab. apply (st_total _ H); assumption. }
  split.
  - intros Ha. unfold zoneLabelLess.
    destruct (String.eqb_spec "@" a); [congruence | reflexivity].
  - intros Ha Ha'. unfold zoneLabelLess.
    destruct (String.eqb_spec "*" a); [congruence|].
    destruct (String.eqb_spec a "@"); [congruence | reflexivity].
Qed.

Lemma Split_app_sep sep p a :
  strings.Split (p ++ String sep a) sep
  = strings.Split p sep ++ strings.Split a sep.
Proof.
  induction p as [|c p IH]; simpl.
  - rewrite Ascii.eqb_refl. reflexivity.
  - rewrite IH. destruct (Ascii.eqb c sep); [reflexivity|].
    pose proof (Split_nonempty p sep) as Hne.
    destruct (strings.Split p sep); [contradiction | reflexivity].
Qed.

Lemma Split_length_one s sep :
  List.length (strings.Split s sep) = S (countByte sep s).
Proof.
  induction s as [|c s IH]; simpl; trivial.
  destruct (Ascii.eqb c sep); simpl; [rewrite IH; reflexivity|].
  pose proof (Split_nonempty s sep) as Hne.
  destruct (strings.Split s sep); [contradiction | exact IH].
Qed.

(** A label is less than each of its subdomains: the parent comes before
    the names below it. *)
Theorem zoneLabelLess_parent_first (p a : string) :
  zoneLabelLess a (p ++ "." ++ a) = true
  /\ zoneLabelLess (p ++ "." ++ a) a = false.
Proof.
  assert (HS : strings.Split (p ++ "." ++ a) "."
               = strings.Split p "." ++ strings.Split a ".")
    by apply Split_app_sep.
  assert (Hlen : 2 <= List.length (strings.Split (p ++ "." ++ a) ".")).
  { rewrite HS, length_app, !Split_length_one. lia. }
  assert (Hb : (p ++ "." ++ a)%string <> "@") by (intros E; rewrite E in Hlen; simpl in Hlen; lia).
  assert (Hb' : (p ++ "." ++ a)%string <> "*") by (intros E; rewrite E in Hlen; simpl in Hlen; lia).
  assert (Hab : a <> (p ++ "." ++ a)%string).
  { intros E. rewrite <- E in HS.
    apply (f_equal (@List.length string)) in HS.
    rewrite length_app, !Split_length_one in HS. lia. }
  assert (Hlt : zoneLabelLess a (p ++ "." ++ a) = true).
  { destruct (String.eqb_spec a "@") as [->|Ha].
    { unfold zoneLabelLess. apply String.eqb_neq in Hab. rewrite Hab. reflexivity. }
    destruct (String.eqb_spec a "*") as [->|Ha'].
    { unfold zoneLabelLess. apply String.eqb_neq in Hab, Hb. rewrite Hab, Hb. reflexivity. }
    rewrite (zoneLabelLess_other a _ Ha Hb Ha' Hb').
    unfold labelLessSpec, listLess.
    rewrite HS, rev_app_distr, firstDiff_prefix_l, length_app, !length_rev.
    apply Nat.ltb_lt. rewrite !Split_length_one. lia. }
  split; [exact Hlt|]. apply (st_asym _ StrictTotal_zoneLabelLess). exact Hlt.
Qed.

(** [zoneRrtypeLess] is a strict total order on the type codes. *)
Theorem zoneRrtypeLess_total_order (a b c : N) :
  zoneRrtypeLess a a = false
  /\ (zoneRrtypeLess a b = true -> zoneRrtypeLess b a = false)
  /\ (zoneRrtypeLess a b = true -> zoneRrtypeLess b c = true ->
      zoneRrtypeLess a c = true)
  /\ (a <> b -> zoneRrtypeLess a b = true \/ zoneRrtypeLess b a = true).
Proof.
  pose proof StrictTotal_zoneRrtypeLess as H.
  split; [apply (st_irrefl _ H)|].
  split; [apply (st_asym _ H)|].
  split; [apply (st_trans _ H)|].
  intros Hab.
  destruct (zoneRrtypeLess a b) eqn:E1; [left; reflexivity|].
  destruct (zoneRrtypeLess b a) eqn:E2; [right; reflexivity|].
  exfalso. apply Hab. apply (st_total _ H); assumption.
Qed.

(** ** When [Less] decides, and when it does not return *)

(** Two records that differ in name or in type are always compared
    without failure, and exactly one of them is less than the other. *)
Theorem Less_decides_distinct (origin : string) (a b : dns.RR) :
  comp origin a <> comp origin b
  \/ dns.Rrtype (dns.Header a) <> dns.Rrtype (dns.Header b) ->
  (lessRR origin a b = Ok true /\ lessRR origin b a = Ok false)
  \/ (lessRR origin a b = Ok false /\ lessRR origin b a = Ok true).
Proof.
  intros Hd. rewrite !lessRR_levels.
  destruct (String.eqb_spec (normLabel origin a) (normLabel origin b)) as [El|El].
  - rewrite El, String.eqb_refl. cbn [negb].
    destruct Hd as [Hc|Ht]; [apply normLabel_eq in El; contradiction|].
    rewrite (N.eqb_sym (dns.Rrtype (dns.Header b))).
    apply N.eqb_neq in Ht. rewrite Ht. cbn [negb].
    pose proof StrictTotal_zoneRrtypeLess as H.
    destruct (zoneRrtypeLess (dns.Rrtype (dns.Header a)) (dns.Rrtype (dns.Header b))) eqn:E1.
    + left. rewrite (st_asym _ H _ _ E1). auto.
    + right. split; [reflexivity|].
      destruct (zoneRrtypeLess (dns.Rrtype (dns.Header b)) (dns.Rrtype (dns.Header a))) eqn:E2;
        [reflexivity|].
      apply N.eqb_neq in Ht. exfalso. apply Ht. apply (st_total _ H); assumption.
  - rewrite (String.eqb_sym (normLabel origin b)).
    apply String.eqb_neq in El. rewrite El. cbn [negb].
    pose proof StrictTotal_zoneLabelLess as H.
    destruct (zoneLabelLess (normLabel origin a) (normLabel origin b)) eqn:E1.
    + left. rewrite (st_asym _ H _ _ E1). auto.
    + right. split; [reflexivity|].
      destruct (zoneLabelLess (normLabel origin b) (normLabel origin a)) eqn:E2;
        [reflexivity|].
      apply String.eqb_neq in El. exfalso. apply El. apply (st_total _ H); assumption.
Qed.

Lemma Less_decides_distinct_witness :
  (lessRR "example.com" apex_A www_10_0_0_2 = Ok true
   /\ lessRR "example.com" www_10_0_0_2 apex_A = Ok false)
  \/ (lessRR "example.com" apex_A www_10_0_0_2 = Ok false
      /\ lessRR "example.com" www_10_0_0_2 apex_A = Ok true).
Proof.
  apply (Less_decides_distinct "example.com" apex_A www_10_0_0_2).
  left. discriminate.
Defined.

(** [Less] exits fatally exactly on two A records of one name one of
    whose addresses does not reduce to four bytes, and panics exactly on
    two records of one name and of type A (or MX) one of which is not an
    A (or MX) record by its dynamic type. *)
Theorem Less_failures (origin : string) (a b : dns.RR) :
  (forall f,
     lessRR origin a b = Fatal f <->
     f = IPsNot4Bytes
     /\ comp origin a = comp origin b
     /\ dns.Rrtype (dns.Header a) = dns.TypeA
     /\ dns.Rrtype (dns.Header b) = dns.TypeA
     /\ exists ipa ipb,
          dns.Body a = dns.A ipa /\ dns.Body b = dns.A ipb
          /\ (net.To4 ipa = None \/ net.To4 ipb = None))
  /\ (lessRR origin a b = Panic <->
      comp origin a = comp origin b
      /\ dns.Rrtype (dns.Header a) = dns.Rrtype (dns.Header b)
      /\ ((dns.Rrtype (dns.Header a) = dns.TypeA
           /\ (assertA a = Panic \/ assertA b = Panic))
          \/ (dns.Rrtype (dns.Header a) = dns.TypeMX
              /\ (assertMX a = Panic \/ assertMX b = Panic)))).
Proof.
  rewrite lessRR_levels.
  destruct (String.eqb_spec (normLabel origin a) (normLabel origin b)) as [El|El];
    cbn [negb].
  2:{ assert (Hc : comp origin a <> comp origin b)
        by (intros E; apply normLabel_eq in E; contradiction).
      split; [intros f|]; (split; [discriminate | tauto]). }
  apply normLabel_eq in El.
  destruct (N.eqb_spec (dns.Rrtype (dns.Header a)) (dns.Rrtype (dns.Header b)))
    as [Et|Et]; cbn [negb].
  2:{ split; [intros f|]; (split; [discriminate|]).
      - intros (_ & _ & Ta & Tb & _). congruence.
      - tauto. }
  assert (Tb : dns.Rrtype (dns.Header a) = dns.TypeA ->
               dns.Rrtype (dns.Header b) = dns.TypeA) by congruence.
  unfold lessTail, assertA, assertMX.
  destruct (N.eqb_spec (dns.Rrtype (dns.Header a)) dns.TypeA) as [Ta|Ta].
  - assert (Hmx : dns.Rrtype (dns.Header a) <> dns.TypeMX)
      by (rewrite Ta; discriminate).
    destruct (dns.Body a) as [ipa|pa ma|] eqn:Ba;
      destruct (dns.Body b) as [ipb|pb mb|] eqn:Bb; simpl.
    2-9: split; [intros f; split; [discriminate|];
                 intros (_ & _ & _ & _ & ipa' & ipb' & Ba' & Bb' & _); discriminate
                |split; [intros _; repeat split; auto | reflexivity]].
    split; [intros f; split|split].
    + destruct (net.To4 ipa) as [xa|] eqn:Xa, (net.To4 ipb) as [xb|] eqn:Xb;
        try discriminate; intros E; injection E as <-;
        repeat split; auto; exists ipa, ipb; auto.
    + intros (-> & _ & _ & _ & ipa' & ipb' & Ba' & Bb' & Hn).
      injection Ba' as <-. injection Bb' as <-.
      destruct Hn as [-> | Hn]; [reflexivity|]. rewrite Hn.
      destruct (net.To4 ipa); reflexivity.
    + destruct (net.To4 ipa), (net.To4 ipb); discriminate.
    + intros (_ & _ & [(_ & [H|H])|(H & _)]); try discriminate. contradiction.
  - destruct (N.eqb_spec (dns.Rrtype (dns.Header a)) dns.TypeMX) as [Tm|Tm].
    + split; [intros f; split|].
      * destruct (dns.Body a), (dns.Body b); discriminate.
      * intros (_ & _ & Ta' & _); contradiction.
      * destruct (dns.Body a) as [ipa|pa ma|] eqn:Ba;
          destruct (dns.Body b) as [ipb|pb mb|] eqn:Bb; simpl.
        5: { split; [discriminate|].
             intros (_ & _ & [(H & _)|(_ & [H|H])]); try discriminate.
             contradiction. }
        all: split; [intros _; repeat split; auto | reflexivity].
    + split; [intros f; split|split]; try discriminate.
      * intros (_ & _ & Ta' & _); contradiction.
      * intros (_ & _ & [(H & _)|(H & _)]); contradiction.
Qed.

(** ** The sort interface: [Len] and [Swap] *)

Lemma length_setNth l : forall i x, List.length (setNth l i x) = List.length l.
Proof.
  induction l as [|y l IH]; intros [|i] x; simpl; trivial. rewrite IH. reflexivity.
Qed.

Lemma nth_error_setNth_eq l : forall i x,
  i < List.length l -> nth_error (setNth l i x) i = Some x.
Proof.
  induction l as [|y l IH]; intros [|i] x; simpl; try lia; trivial.
  intros Hi. apply IH. lia.
Qed.

Lemma nth_error_setNth_neq l : forall i k x,
  k <> i -> nth_error (setNth l i x) k = nth_error l k.
Proof.
  induction l as [|y l IH]; intros [|i] [|k] x Hk; simpl; trivial; try congruence.
  apply IH. congruence.
Qed.

Lemma setNth_Permutation l : forall i a x,
  nth_error l i = Some a -> Permutation (x :: l) (a :: setNth l i x).
Proof.
  induction l as [|y l IH]; intros [|i] a x; simpl; try discriminate.
  - intros E. injection E as ->. apply perm_swap.
  - intros E. eapply perm_trans; [apply perm_swap|].
    eapply perm_trans; [apply perm_skip, (IH i a x E)|]. apply perm_swap.
Qed.

(** [Swap] with both indices in range exchanges the two records and
    leaves every other one, the length and the zone's origin and TTL as
    they were: the records are permuted, [Less] sees the exchange, and a
    second [Swap] undoes it.  With an index out of range it panics. *)
Theorem Swap_exchanges (z : zoneGenData) (i j : nat) :
  (i < Len z -> j < Len z ->
   exists z',
     Swap z i j = Ok z'
     /\ Len z' = Len z /\ Origin z' = Origin z /\ DefaultTtl z' = DefaultTtl z
     /\ nth_error (Records z') i = nth_error (Records z) j
     /\ nth_error (Records z') j = nth_error (Records z) i
     /\ (forall k, k <> i -> k <> j ->
           nth_error (Records z') k = nth_error (Records z) k)
     /\ Permutation (Records z) (Records z')
     /\ Less z' i j = Less z j i
     /\ Swap z' i j = Ok z)
  /\ (Len z <= i \/ Len z <= j -> Swap z i j = Panic).
Proof.
  destruct z as [o t rs]. unfold Len, Swap. cbn [Records Origin DefaultTtl].
  split.
  - intros Hi Hj.
    destruct (nth_error rs i) as [a|] eqn:Ea; [|apply nth_error_None in Ea; lia].
    destruct (nth_error rs j) as [b|] eqn:Eb; [|apply nth_error_None in Eb; lia].
    set (rs' := setNth (setNth rs i b) j a).
    assert (Hj' : nth_error rs' j = Some a).
    { apply nth_error_setNth_eq. rewrite length_setNth. exact Hj. }
    assert (Hi' : nth_error rs' i = Some b).
    { destruct (Nat.eq_dec i j) as [->|Hij].
      - rewrite Hj'. congruence.
      - unfold rs'. rewrite nth_error_setNth_neq by exact Hij.
        apply nth_error_setNth_eq. exact Hi. }
    assert (Hk : forall k, k <> i -> k <> j -> nth_error rs' k = nth_error rs k).
    { intros k Hki Hkj. unfold rs'. rewrite !nth_error_setNth_neq; auto. }
    exists (mkZone o t rs'). cbn [Records Origin DefaultTtl].
    split; [reflexivity|].
    split; [unfold rs'; rewrite !length_setNth; reflexivity|].
    split; [reflexivity|]. split; [reflexivity|].
    split; [congruence|]. split; [congruence|]. split; [exact Hk|].
    split.
    { apply (Permutation_cons_inv (a := b)).
      eapply perm_trans; [apply (setNth_Permutation rs i a b Ea)|].
      apply setNth_Permutation.
      destruct (Nat.eq_dec j i) as [->|Hji].
      - rewrite nth_error_setNth_eq by exact Hi. congruence.
      - rewrite nth_error_setNth_neq by exact Hji. exact Eb. }
    split.
    { unfold Less. cbn [Records Origin]. rewrite Hi', Hj', Ea, Eb. reflexivity. }
    rewrite Hi', Hj'. f_equal. f_equal.
    apply nth_error_ext. intros k.
    destruct (Nat.eq_dec k j) as [->|Hkj].
    + rewrite nth_error_setNth_eq, Eb; [reflexivity|].
      rewrite length_setNth. unfold rs'. rewrite !length_setNth. exact Hj.
    + rewrite nth_error_setNth_neq by exact Hkj.
      destruct (Nat.eq_dec k i) as [->|Hki].
      * rewrite nth_error_setNth_eq, Ea; [reflexivity|].
        unfold rs'. rewrite !length_setNth. exact Hi.
      * rewrite nth_error_setNth_neq by exact Hki. apply Hk; assumption.
  - intros [H|H]; apply nth_error_None in H; rewrite H; [reflexivity|].
    destruct (nth_error rs i); reflexivity.
Qed.

(** ** [formatLine] *)

Lemma string_app_nil_r (s : string) : (s ++ "")%string = s.
Proof. induction s as [|c s IH]; simpl; [|rewrite IH]; reflexivity. Qed.

Lemma string_length_app (a b : string) :
  String.length (a ++ b) = String.length a + String.length b.
Proof. induction a as [|c a IH]; simpl; [|rewrite IH]; reflexivity. Qed.

Lemma length_spaces n : String.length (spaces n) = n.
Proof. induction n as [|n IH]; simpl; [|rewrite IH]; reflexivity. Qed.

Lemma spaces_add n m : (spaces n ++ spaces m)%string = spaces (n + m).
Proof. induction n as [|n IH]; simpl; [|rewrite IH]; reflexivity. Qed.

Lemma TrimRight_spaces_only n : strings.TrimRight (spaces n) = "".
Proof. induction n as [|n IH]; simpl; [|rewrite IH]; reflexivity. Qed.

Lemma TrimRight_spaces s n : strings.TrimRight (s ++ spaces n) = strings.TrimRight s.
Proof.
  induction s as [|c s IH]; simpl.
  - apply TrimRight_spaces_only.
  - rewrite IH. reflexivity.
Qed.

Lemma TrimRight_no_space s : endsWithSpace (strings.TrimRight s) = false.
Proof.
  induction s as [|c s IH]; simpl; trivial.
  destruct (strings.TrimRight s) as [|c' t] eqn:E.
  - destruct (Ascii.eqb c " ") eqn:Ec; simpl; [reflexivity | exact Ec].
  - exact IH.
Qed.

Lemma formatLoop_Panic lengths : forall fields i c result,
  i <= List.length fields ->
  (List.length fields < i + List.length lengths ->
   formatLoop lengths fields i c result = Panic)
  /\ (i + List.length lengths <= List.length fields ->
      exists r, formatLoop lengths fields i c result = Ok r).
Proof.
  induction lengths as [|len lengths IH]; intros fields i c result Hi; simpl.
  - split; [lia | eauto].
  - destruct (nth_error fields i) as [item|] eqn:E.
    + assert (Hi' : i < List.length fields)
        by (apply nth_error_Some; congruence).
      split; intros H; apply IH; lia.
    + apply nth_error_None in E. split; [reflexivity | lia].
Qed.

(** [formatLine] panics exactly when there are fewer fields than
    columns; otherwise it returns a line that does not end in a space. *)
Theorem formatLine_fields (lengths : list nat) (fields : list string) :
  (List.length fields < List.length lengths ->
   formatLine lengths fields = Panic)
  /\ (List.length lengths <= List.length fields ->
      exists line, formatLine lengths fields = Ok line
                   /\ endsWithSpace line = false).
Proof.
  unfold formatLine.
  destruct (formatLoop_Panic lengths fields 0 0 "" (Nat.le_0_l _)) as [H1 H2]. split.
  - intros H. rewrite H1 by exact H. reflexivity.
  - intros H. destruct (H2 H) as [r ->]. simpl.
    eexists. split; [reflexivity | apply TrimRight_no_space].
Qed.

Lemma formatLine_fields_witness :
  exists line, formatLine [10; 5; 2; 5; 0] ["@"; ""; "IN"; "A"; "192.0.2.1"] = Ok line
               /\ endsWithSpace line = false.
Proof.
  apply (proj2 (formatLine_fields [10; 5; 2; 5; 0] ["@"; ""; "IN"; "A"; "192.0.2.1"])).
  simpl. lia.
Defined.

Lemma padTo_step (P item : string) (c len : nat) :
  String.length P = c -> String.length item <= len ->
  let result := if String.eqb item "" then P else (P ++ item ++ " ")%string in
  (result ++ spaces (c + (len + 1) - String.length result))%string
  = (P ++ padTo (len + 1) item)%string.
Proof.
  intros HP Hit. unfold padTo.
  destruct (String.eqb_spec item "") as [->|Hne]; cbv zeta.
  - simpl. rewrite HP. f_equal. f_equal. lia.
  - rewrite !string_app_assoc. f_equal. f_equal.
    rewrite !string_length_app, HP. simpl.
    replace (len + 1 - String.length item) with (S (len - String.length item)) by lia.
    simpl. f_equal. f_equal. lia.
Qed.

Lemma length_padTo n s : String.length s <= n -> String.length (padTo n s) = n.
Proof.
  intros H. unfold padTo. rewrite string_length_app, length_spaces. lia.
Qed.

Lemma formatLoop_columns lengths : forall fs pre c result,
  fits lengths fs = true ->
  String.length result <= c ->
  exists r,
    formatLoop lengths (pre ++ fs) (List.length pre) c result = Ok r
    /\ strings.TrimRight r
       = strings.TrimRight
           ((result ++ spaces (c - String.length result)) ++ columns lengths fs).
Proof.
  induction lengths as [|len lengths IH]; intros fs pre c result Hfit Hc.
  - exists result. split; [reflexivity|].
    destruct fs; simpl; rewrite string_app_nil_r, TrimRight_spaces; reflexivity.
  - destruct fs as [|item fs]; [discriminate|].
    cbn [formatLoop columns].
    rewrite nth_error_app2, Nat.sub_diag by lia. cbn [nth_error].
    set (P := (result ++ spaces (c - String.length result))%string).
    assert (HP : String.length P = c)
      by (unfold P; rewrite string_length_app, length_spaces; lia).
    set (result' := if String.eqb item "" then P else (P ++ item ++ " ")%string).
    destruct lengths as [|len' lengths].
    + exists result'. split; [reflexivity|].
      unfold result', padTo. simpl columns.
      destruct (String.eqb_spec item "") as [->|Hne].
      * simpl. rewrite string_app_nil_r, TrimRight_spaces. reflexivity.
      * rewrite string_app_nil_r, <- !string_app_assoc, TrimRight_spaces.
        change " " with (spaces 1). rewrite TrimRight_spaces. reflexivity.
    + cbn [fits] in Hfit. apply andb_true_iff in Hfit. destruct Hfit as [Hit Hfit].
      apply Nat.leb_le in Hit.
      assert (Hc' : String.length result' <= c + (len + 1)).
      { unfold result'. destruct (String.eqb item ""); [lia|].
        rewrite !string_length_app. simpl. lia. }
      destruct (IH fs (pre ++ [item]) (c + (len + 1)) result' Hfit Hc')
        as (r & Er & Tr).
      rewrite <- app_assoc, length_app in Er. simpl in Er.
      rewrite Nat.add_1_r in Er.
      exists r. split; [exact Er|].
      rewrite Tr. unfold result'.
      rewrite (padTo_step P item c len HP Hit), string_app_assoc. reflexivity.
Qed.

(** When every field before the last fits its column, [formatLine] lays
    the fields out in columns of the given widths, each followed by one
    space, and trims the spaces at the end of the line. *)
Theorem formatLine_columns (lengths : list nat) (fields : list string) :
  fits lengths fields = true ->
  formatLine lengths fields = Ok (strings.TrimRight (columns lengths fields)).
Proof.
  intros Hfit. unfold formatLine.
  destruct (formatLoop_columns lengths fields [] 0 "" Hfit (Nat.le_refl 0))
    as (r & Er & Tr).
  simpl in Er. rewrite Er. simpl. f_equal. exact Tr.
Qed.

Lemma formatLine_columns_witness :
  formatLine [10; 5; 2; 5; 0] ["www"; "300"; "IN"; "MX"; "10 mail.example.com."]
  = Ok "www        300   IN MX    10 mail.example.com.".
Proof.
  apply (formatLine_columns [10; 5; 2; 5; 0]
           ["www"; "300"; "IN"; "MX"; "10 mail.example.com."]).
  reflexivity.
Defined.

(** ** The fields of a canonical line *)

Lemma SplitN_length sep s : forall n,
  List.length (strings.SplitN s sep n) = Nat.min n (S (countByte sep s)).
Proof.
  induction s as [|c s IH]; intros [|[|n]]; trivial.
  cbn [strings.SplitN countByte].
  destruct (Ascii.eqb c sep).
  - cbn [List.length]. rewrite IH. simpl. reflexivity.
  - specialize (IH (S (S n))).
    destruct (strings.SplitN s sep (S (S n))) as [|h t]; simpl in *; lia.
Qed.

Lemma SplitN_first sep a rest : forall n,
  countByte sep a = 0 ->
  strings.SplitN (a ++ String sep rest) sep (S (S n))
  = a :: strings.SplitN rest sep (S n).
Proof.
  induction a as [|c a IH]; intros n Ha.
  - simpl. rewrite Ascii.eqb_refl. reflexivity.
  - simpl in Ha. destruct (Ascii.eqb c sep) eqn:Ec; [discriminate|].
    cbn [strings.SplitN append]. rewrite Ec.
    rewrite (IH n Ha). reflexivity.
Qed.

(** A line of five tab-separated fields, the first four without a tab,
    splits into exactly those fields: tabs in the fifth one are kept. *)
Lemma SplitN_five a b c d e :
  countByte tab a = 0 -> countByte tab b = 0 ->
  countByte tab c = 0 -> countByte tab d = 0 ->
  strings.SplitN (rrLine a b c d e) tab 5 = [a; b; c; d; e].
Proof.
  intros Ha Hb Hc Hd. unfold rrLine. cbn [Join].
  rewrite (SplitN_first tab a _ 3 Ha), (SplitN_first tab b _ 2 Hb),
    (SplitN_first tab c _ 1 Hc), (SplitN_first tab d _ 0 Hd).
  destruct e; reflexivity.
Qed.

Ltac break_hyps :=
  repeat match goal with
         | H : _ /\ _ |- _ => destruct H
         | H : _ \/ _ |- _ => destruct H
         | H : exists _, _ |- _ => destruct H
         end;
  subst.

Section RendererMore.

Variable TrimDomainName : string -> string -> string.
Variable TypeToString : N -> string.
Variable sort_Sort :
  (dns.RR -> dns.RR -> outcome bool) -> list dns.RR -> outcome (list dns.RR).

(** What one iteration of the loop does with a record is decided by its
    line and its class alone: it panics on an empty line, skips a line
    that begins with ';', exits on a line with fewer than four tabs and
    otherwise on a class other than INET, and emits in every other case. *)
Theorem loopBody_outcomes (z : zoneGenData) (i : nat) (prev : string) (rr : dns.RR) :
  (loopBody TrimDomainName TypeToString z i prev rr = Crash <-> dns.Line rr = "")
  /\ (loopBody TrimDomainName TypeToString z i prev rr = Skip <->
      isComment rr = true)
  /\ (forall f,
        loopBody TrimDomainName TypeToString z i prev rr = Stop f <->
        dns.Line rr <> "" /\ isComment rr = false
        /\ ((countByte tab (dns.Line rr) < 4 /\ f = TooFewItems (dns.Line rr))
            \/ (4 <= countByte tab (dns.Line rr)
                /\ dns.Class (dns.Header rr) <> dns.ClassINET
                /\ f = UnimplementedClass
                         (nth 2 (strings.SplitN (dns.Line rr) tab 5) ""))))
  /\ ((exists fields nameShort,
         loopBody TrimDomainName TypeToString z i prev rr = Emit fields nameShort) <->
      dns.Line rr <> "" /\ isComment rr = false
      /\ 4 <= countByte tab (dns.Line rr)
      /\ dns.Class (dns.Header rr) = dns.ClassINET).
Proof.
  unfold loopBody, isComment.
  destruct (dns.Line rr) as [|c line'] eqn:El.
  { repeat split; intros; break_hyps; try discriminate; try congruence. }
  rewrite <- El. cbv zeta.
  assert (Hne : dns.Line rr <> "") by (rewrite El; discriminate).
  destruct (Ascii.eqb c ";").
  { repeat split; intros; break_hyps; try discriminate; try congruence. }
  rewrite SplitN_length.
  destruct (Nat.ltb_spec (Nat.min 5 (S (countByte tab (dns.Line rr)))) 5) as [Hl|Hl].
  { assert (Hcnt : countByte tab (dns.Line rr) < 4) by lia.
    repeat split; intros; break_hyps; try discriminate; try congruence; try lia.
    injection H as <-. left. auto. }
  assert (Hcnt : 4 <= countByte tab (dns.Line rr)) by lia.
  destruct (N.eqb_spec (dns.Class (dns.Header rr)) dns.ClassINET) as [Ec|Ec];
    cbn [negb].
  - repeat split; intros; break_hyps; try discriminate; try congruence; try lia.
    eexists. eexists. reflexivity.
  - repeat split; intros; break_hyps; try discriminate; try congruence; try lia.
    injection H as <-. right. auto.
Qed.

Lemma loopBody_skip_comment (z : zoneGenData) (i : nat) (prev : string) (rr : dns.RR) :
  loopBody TrimDomainName TypeToString z i prev rr = Skip <-> isComment rr = true.
Proof.
  unfold loopBody, isComment.
  destruct (dns.Line rr) as [|c line']; [split; discriminate|].
  destruct (Ascii.eqb c ";"); [split; reflexivity|].
  cbv zeta. split; [|discriminate].
  destruct (Nat.ltb _ 5); [discriminate|].
  destruct (negb _); discriminate.
Qed.

(** A record of class INET whose line is five tab-separated fields, the
    first four without a tab and the line not a comment, is emitted with
    the fifth field as it stands (tabs included), the type name from the
    table, the class written "IN", and the second field as its TTL when
    the TTL is shown. *)
Theorem loopBody_emits_rdata (z : zoneGenData) (i : nat) (prev : string)
    (rr : dns.RR) (name ttl class type rdata : string) :
  dns.Line rr = rrLine name ttl class type rdata ->
  countByte tab name = 0 -> countByte tab ttl = 0 ->
  countByte tab class = 0 -> countByte tab type = 0 ->
  isComment rr = false ->
  dns.Class (dns.Header rr) = dns.ClassINET ->
  exists label,
    loopBody TrimDomainName TypeToString z i prev rr
    = Emit [label;
            if N.eqb (dns.Ttl (dns.Header rr)) 0 then ""
            else if N.eqb (dns.Ttl (dns.Header rr)) (DefaultTtl z) then ""
            else ttl;
            "IN"; TypeToString (dns.Rrtype (dns.Header rr)); rdata]
        (TrimDomainName (dns.Name (dns.Header rr)) (Origin z)).
Proof.
  intros El Hn Ht Hc Hy Hcom Hcls.
  unfold loopBody. unfold isComment in Hcom.
  destruct (dns.Line rr) as [|c line'] eqn:E.
  { exfalso. unfold rrLine in El. cbn [Join] in El.
    destruct name; discriminate. }
  rewrite Hcom. rewrite El, (SplitN_five _ _ _ _ _ Hn Ht Hc Hy). cbv zeta.
  cbn [List.length Nat.ltb Nat.leb nth]. rewrite Hcls, N.eqb_refl. cbn [negb].
  eexists. f_equal. f_equal. f_equal.
  destruct (N.eqb (dns.Ttl (dns.Header rr)) (DefaultTtl z)),
    (N.eqb (dns.Ttl (dns.Header rr)) 0); reflexivity.
Qed.

(** The loop writes whole lines after what the sink held, at most one
    for each record that is not a comment and, when it returns, exactly
    one; no line ends in a space. *)
Lemma emitLoop_lines (z : zoneGenData) (rs : list dns.RR) :
  forall (i : nat) (prev w : string),
  exists lines,
    sink (emitLoop TrimDomainName TypeToString z rs i prev w)
    = (w ++ writeLines lines)%string
    /\ Forall (fun l => endsWithSpace l = false) lines
    /\ List.length lines
       <= List.length (filter (fun r => negb (isComment r)) rs)
    /\ (forall w' err,
          emitLoop TrimDomainName TypeToString z rs i prev w = Returned w' err ->
          List.length lines
          = List.length (filter (fun r => negb (isComment r)) rs)).
Proof.
  induction rs as [|rr rs IH]; intros i prev w.
  { exists []. simpl. rewrite string_app_nil_r. repeat split; auto. }
  assert (Hstop : forall r : run, sink r = w ->
            (forall w' err, r <> Returned w' err) ->
            exists lines,
              sink r = (w ++ writeLines lines)%string
              /\ Forall (fun l => endsWithSpace l = false) lines
              /\ List.length lines
                 <= List.length (filter (fun r => negb (isComment r)) (rr :: rs))
              /\ (forall w' err, r = Returned w' err ->
                    List.length lines
                    = List.length (filter (fun r => negb (isComment r)) (rr :: rs)))).
  { intros r Hs Hr. exists []. simpl writeLines. rewrite string_app_nil_r.
    repeat split; auto; [simpl; lia|].
    intros w' err E. exfalso. exact (Hr w' err E). }
  cbn [emitLoop].
  destruct (loopBody_skip_comment z i prev rr) as [Hs2 Hs1].
  destruct (loopBody TrimDomainName TypeToString z i prev rr)
    as [|fields nameShort|f|] eqn:Eb.
  - destruct (IH (S i) prev w) as (lines & H1 & H2 & H3 & H4).
    exists lines. cbn [filter]. rewrite (Hs2 eq_refl). cbn [negb]. auto.
  - assert (Hc : isComment rr = false).
    { destruct (isComment rr) eqn:Ec; trivial.
      discriminate (Hs1 eq_refl). }
    cbn [filter]. rewrite Hc. cbn [negb List.length].
    destruct (formatLine [10; 5; 2; 5; 0] fields) as [l| |] eqn:Ef.
    + destruct (IH (S i) nameShort (w ++ l ++ newline)%string)
        as (lines & H1 & H2 & H3 & H4).
      exists (l :: lines). cbn [writeLines List.length].
      split; [rewrite H1, !string_app_assoc; reflexivity|].
      split.
      { constructor; [|exact H2]. unfold formatLine in Ef.
        destruct (formatLoop _ _ _ _ _); try discriminate.
        simpl in Ef. injection Ef as <-. apply TrimRight_no_space. }
      split; [lia|]. intros w' err E. rewrite (H4 w' err E). reflexivity.
    + exists []. simpl writeLines. rewrite string_app_nil_r.
      repeat split; auto; [simpl; lia | discriminate].
    + exists []. simpl writeLines. rewrite string_app_nil_r.
      repeat split; auto; [simpl; lia | discriminate].
  - apply Hstop; [reflexivity | discriminate].
  - apply Hstop; [reflexivity | discriminate].
Qed.

Lemma Permutation_filter_length (f : dns.RR -> bool) (l l' : list dns.RR) :
  Permutation l l' -> List.length (filter f l) = List.length (filter f l').
Proof.
  induction 1 as [|x l l' _ IH|x y l|l l' l'' _ IH1 _ IH2]; simpl; trivial.
  - destruct (f x); simpl; congruence.
  - destruct (f x), (f y); reflexivity.
  - congruence.
Qed.

(** [WriteZoneFile] only appends to the sink.  When the sort does not
    return, nothing is written.  When it returns the records in some
    order, the header "$TTL n" is written and then whole lines, none
    ending in a space: at most one for each record whose line is not a
    comment, and exactly one for each when the call returns. *)
Theorem WriteZoneFile_output (w : string) (records : list dns.RR)
    (origin : string) (defaultTtl : N) :
  ((forall sorted, sort_Sort (lessRR origin) records <> Ok sorted) ->
   sink (WriteZoneFile TrimDomainName TypeToString sort_Sort
           w records origin defaultTtl) = w)
  /\ (forall sorted,
        sort_Sort (lessRR origin) records = Ok sorted ->
        Permutation records sorted ->
        exists lines,
          sink (WriteZoneFile TrimDomainName TypeToString sort_Sort
                  w records origin defaultTtl)
          = (w ++ "$TTL " ++ decimal defaultTtl ++ newline ++ writeLines lines)%string
          /\ Forall (fun l => endsWithSpace l = false) lines
          /\ List.length lines
             <= List.length (filter (fun r => negb (isComment r)) records)
          /\ (forall w' err,
                WriteZoneFile TrimDomainName TypeToString sort_Sort
                  w records origin defaultTtl = Returned w' err ->
                List.length lines
                = List.length (filter (fun r => negb (isComment r)) records))).
Proof.
  rewrite WriteZoneFile_unfold. split.
  - intros Hs. destruct (sort_Sort (lessRR origin) records) as [sorted| |];
      [exfalso; exact (Hs sorted eq_refl) | reflexivity..].
  - intros sorted -> Hperm.
    destruct (emitLoop_lines (mkZone origin defaultTtl sorted) sorted 0 ""
                (w ++ "$TTL " ++ decimal defaultTtl ++ newline)%string)
      as (lines & H1 & H2 & H3 & H4).
    exists lines.
    rewrite (Permutation_filter_length _ _ _ Hperm).
    split; [rewrite H1, !string_app_assoc; reflexivity|]. auto.
Qed.

Lemma emitLoopSpec_filter (z : zoneGenData) (rs : list dns.RR) :
  forall last w,
    emitLoopSpec TrimDomainName TypeToString z rs last w
    = emitLoopSpec TrimDomainName TypeToString z
        (filter (fun r => negb (isComment r)) rs) last w.
Proof.
  induction rs as [|rr rs IH]; intros last w; trivial.
  cbn [filter]. unfold isComment at 1.
  destruct (dns.Line rr) as [|c line'] eqn:El.
  - cbn [negb emitLoopSpec]. rewrite El. reflexivity.
  - destruct (Ascii.eqb c ";") eqn:Ec; cbn [negb emitLoopSpec]; rewrite El, Ec.
    + apply IH.
    + cbv zeta. destruct (Nat.ltb _ 5); trivial.
      destruct (negb _); trivial.
      destruct (formatLine _ _); trivial.
Qed.

(** Records whose line is a comment have no influence on what the loop
    writes, not even on which labels are left out: the loop run from the
    start gives the same result with these records removed. *)
Theorem emitLoop_ignores_comments (z : zoneGenData) (rs : list dns.RR) (w : string) :
  emitLoop TrimDomainName TypeToString z rs 0 "" w
  = emitLoop TrimDomainName TypeToString z
      (filter (fun r => negb (isComment r)) rs) 0 "" w.
Proof.
  rewrite !(emitLoop_tracks TrimDomainName TypeToString z _ 0 "" None w)
    by (left; auto).
  apply emitLoopSpec_filter.
Qed.

End RendererMore.

Lemma loopBody_emits_rdata_witness :
  exists label,
    loopBody exampleTrimDomainName exampleTypeToString
      (mkZone "example.com" 3600 [mx10_mail1]) 0 "" mx10_mail1
    = Emit [label; "300"; "IN"; "MX"; "10 mail1.example.com."] "@".
Proof.
  apply (loopBody_emits_rdata exampleTrimDomainName exampleTypeToString
           (mkZone "example.com" 3600 [mx10_mail1]) 0 ""
           mx10_mail1 "example.com." "300" "IN" "MX" "10 mail1.example.com.");
    reflexivity.
Defined.

(** ** The sort of short slices *)

Section InsertionSort.

Variable less : dns.RR -> dns.RR -> outcome bool.
Hypothesis less_asym : forall x y, less x y = Ok true -> less y x = Ok false.

Lemma insertLeft_orderedRev x : forall before p,
  orderedRev less before -> insertLeft less x before = Ok p ->
  orderedRev less p.
Proof.
  induction before as [|y before IH]; intros p Hs; cbn [insertLeft].
  - intros E. injection E as <-. exact I.
  - destruct (less x y) as [[|]| |] eqn:Exy; simpl bind; try discriminate.
    + destruct (insertLeft less x before) as [r| |] eqn:Er; simpl; try discriminate.
      intros E. injection E as <-.
      assert (Hb : orderedRev less before) by (destruct before; [exact I | apply Hs]).
      pose proof (IH r Hb eq_refl) as Hr.
      destruct before as [|y' before].
      * simpl in Er. injection Er as <-. split; [|exact I].
        apply less_asym. exact Exy.
      * cbn [insertLeft] in Er.
        destruct (less x y') as [[|]| |]; simpl in Er; try discriminate.
        -- destruct (insertLeft less x before); simpl in Er; try discriminate.
           injection Er as <-. split; [apply Hs | exact Hr].
        -- injection Er as <-. split; [apply less_asym; exact Exy | exact Hr].
    + intros E. injection E as <-. split; [exact Exy | exact Hs].
Qed.

Lemma orderedRev_rev : forall l acc,
  orderedRev less l -> ordered less acc ->
  (forall x y l' acc', l = x :: l' -> acc = y :: acc' -> notAfter less x y) ->
  ordered less (rev l ++ acc).
Proof.
  induction l as [|a l IH]; intros acc Hl Hacc Hlink; [exact Hacc|].
  simpl. rewrite <- app_assoc. apply IH.
  - destruct l; [exact I | apply Hl].
  - simpl. destruct acc as [|y acc']; [exact I|].
    split; [eapply Hlink; reflexivity | exact Hacc].
  - intros x y l' acc' -> E. injection E as <- <-. apply Hl.
Qed.

Lemma insertionLoop_ordered todo : forall before sorted,
  orderedRev less before -> insertionLoop less before todo = Ok sorted ->
  ordered less sorted.
Proof.
  induction todo as [|x todo IH]; intros before sorted Hb; cbn [insertionLoop].
  - intros E. injection E as <-. rewrite <- (app_nil_r (rev before)).
    apply orderedRev_rev; [exact Hb | exact I | discriminate].
  - destruct (insertLeft less x before) as [p| |] eqn:Ep; simpl; try discriminate.
    apply IH. eapply insertLeft_orderedRev; eauto.
Qed.

Lemma insertLeft_Ok x : forall before,
  (forall y, In y before -> exists r, less x y = Ok r) ->
  exists p, insertLeft less x before = Ok p.
Proof.
  induction before as [|y before IH]; intros H; cbn [insertLeft]; [eauto|].
  destruct (H y (or_introl eq_refl)) as [[|] ->]; simpl; [|eauto].
  destruct IH as [p ->]; [intros y' Hy'; apply H; right; exact Hy'|].
  simpl. eauto.
Qed.

Lemma insertionLoop_Ok todo : forall before,
  (forall a b, In a (before ++ todo) -> In b (before ++ todo) ->
               exists r, less a b = Ok r) ->
  exists sorted, insertionLoop less before todo = Ok sorted.
Proof.
  induction todo as [|x todo IH]; intros before H; cbn [insertionLoop]; [eauto|].
  destruct (insertLeft_Ok x before) as [p Ep].
  { intros y Hy. apply H; apply in_or_app; [right; left; reflexivity | left; exact Hy]. }
  rewrite Ep. simpl. apply IH.
  pose proof (insertLeft_Permutation less x before p Ep) as Hp.
  assert (Hin : forall a, In a (p ++ todo) -> In a (before ++ x :: todo)).
  { intros a Ha. apply in_app_or in Ha. destruct Ha as [Ha|Ha].
    - apply (Permutation_in _ (Permutation_sym Hp)) in Ha.
      destruct Ha as [<-|Ha]; apply in_or_app; [right; left; reflexivity | left; exact Ha].
    - apply in_or_app. right. right. exact Ha. }
  intros a b Ha Hb. apply H; apply Hin; assumption.
Qed.

End InsertionSort.

Lemma ordered_Sorted less l : ordered less l -> Sorted (notAfter less) l.
Proof.
  induction l as [|x l IH]; intros H; [constructor|].
  constructor.
  - apply IH. destruct l; [exact I | apply H].
  - destruct l; constructor. apply H.
Qed.

(** Not being less is transitive, where the comparisons return. *)
Lemma notAfter_trans origin x y z :
  notAfter (lessRR origin) x y -> notAfter (lessRR origin) y z ->
  notAfter (lessRR origin) x z.
Proof.
  unfold notAfter. rewrite !lessRR_Ok_iff.
  intros [Hyx Dyx] [Hzy Dzy].
  pose proof StrictTotal_keyLess as HK. pose proof StrictTotal_primaryLess as HP.
  symmetry in Hyx, Hzy.
  destruct (keyLess (recordKey origin z) (recordKey origin x)) eqn:Hzx.
  - exfalso.
    pose proof (st_lt_le _ HK _ _ _ Hzx Hyx) as Hzy'. congruence.
  - split; [reflexivity|]. intros Ezx.
    assert (Ey : primary origin y = primary origin x).
    { destruct (primaryEqb (primary origin y) (primary origin x)) eqn:E;
        [apply primaryEqb_eq; exact E|]. exfalso.
      assert (L1 : primaryLess (primary origin x) (primary origin y) = true).
      { destruct (primaryLess (primary origin x) (primary origin y)) eqn:L; trivial.
        assert (L' : primaryLess (primary origin y) (primary origin x) = false).
        { unfold keyLess, lexb in Hyx. rewrite !recordKey_fst, E in Hyx. exact Hyx. }
        rewrite (st_total _ HP _ _ L L'), (proj2 (primaryEqb_eq _ _) eq_refl) in E.
        discriminate. }
      assert (L2 : primaryLess (primary origin z) (primary origin y) = true)
        by (rewrite Ezx; exact L1).
      unfold keyLess, lexb in Hzy. rewrite !recordKey_fst in Hzy.
      destruct (primaryEqb (primary origin z) (primary origin y)) eqn:E';
        simpl in Hzy.
      - apply primaryEqb_eq in E'. rewrite E', (st_irrefl _ HP) in L2. discriminate.
      - congruence. }
    destruct (Dyx Ey) as [_ Hx].
    destruct (Dzy (eq_trans Ezx (eq_sym Ey))) as [Hz _]. auto.
Qed.

(** When the sort of a short slice returns, it returns the records it
    was given, in an order in which no record is less than any record
    before it. *)
Theorem insertionSort_sorts (origin : string) (data sorted : list dns.RR) :
  insertionSort (lessRR origin) data = Ok sorted ->
  Permutation data sorted
  /\ StronglySorted (notAfter (lessRR origin)) sorted.
Proof.
  intros E. split; [apply insertionSort_Permutation in E; exact E|].
  apply Sorted_StronglySorted.
  - intros x y z. apply notAfter_trans.
  - apply ordered_Sorted.
    apply (insertionLoop_ordered (lessRR origin) (lessRR_asym origin) data [] sorted I E).
Qed.

Lemma insertionSort_sorts_witness :
  Permutation [www_10_0_0_10; mx20_mail; www_10_0_0_2; apex_A]
              [apex_A; mx20_mail; www_10_0_0_2; www_10_0_0_10]
  /\ StronglySorted (notAfter (lessRR "example.com"))
       [apex_A; mx20_mail; www_10_0_0_2; www_10_0_0_10].
Proof.
  apply (insertionSort_sorts "example.com"
           [www_10_0_0_10; mx20_mail; www_10_0_0_2; apex_A]).
  reflexivity.
Defined.

Lemma StronglySorted_unique origin (l1 : list dns.RR) : forall l2,
  StronglySorted (notAfter (lessRR origin)) l1 ->
  StronglySorted (notAfter (lessRR origin)) l2 ->
  Permutation l1 l2 ->
  (forall a b, In a l1 -> In b l1 -> incomparable origin a b -> a = b) ->
  l1 = l2.
Proof.
  induction l1 as [|a t1 IH]; intros l2 S1 S2 Hp Hties.
  - apply Permutation_nil in Hp. congruence.
  - destruct l2 as [|b t2];
      [apply Permutation_sym, Permutation_nil in Hp; discriminate|].
    apply StronglySorted_inv in S1. destruct S1 as [S1 F1].
    apply StronglySorted_inv in S2. destruct S2 as [S2 F2].
    assert (Eab : a = b).
    { assert (Ha : In a (b :: t2)) by (eapply Permutation_in; [exact Hp | left; reflexivity]).
      assert (Hb : In b (a :: t1))
        by (eapply Permutation_in; [apply Permutation_sym; exact Hp | left; reflexivity]).
      destruct Ha as [Ha|Ha]; [congruence|].
      destruct Hb as [Hb|Hb]; [congruence|].
      rewrite Forall_forall in F1, F2.
      apply Hties; [left; reflexivity | right; exact Hb|].
      split; [apply (F2 a Ha) | apply (F1 b Hb)]. }
    subst b. f_equal. apply IH; trivial.
    + eapply Permutation_cons_inv. exact Hp.
    + intros x y Hx Hy. apply Hties; right; assumption.
Qed.

(** When every two of the records can be compared and no two different
    records tie, the rendering does not depend on the order in which the
    records are given (for slices short enough for the insertion sort). *)
Theorem render_permutation_invariant
    (TrimDomainName : string -> string -> string) (TypeToString : N -> string)
    (w : string) (records records' : list dns.RR) (origin : string)
    (defaultTtl : N) :
  Permutation records records' ->
  (forall a b, In a records -> In b records -> exists r, lessRR origin a b = Ok r) ->
  (forall a b, In a records -> In b records -> incomparable origin a b -> a = b) ->
  WriteZoneFile TrimDomainName TypeToString insertionSort w records origin defaultTtl
  = WriteZoneFile TrimDomainName TypeToString insertionSort w records' origin defaultTtl.
Proof.
  intros Hp Hcmp Hties.
  destruct (insertionLoop_Ok (lessRR origin) records []) as [s1 E1];
    [exact Hcmp|].
  destruct (insertionLoop_Ok (lessRR origin) records' []) as [s2 E2].
  { intros a b Ha Hb.
    apply Hcmp; eapply Permutation_in; try (apply Permutation_sym; exact Hp); assumption. }
  fold (insertionSort (lessRR origin) records) in E1.
  fold (insertionSort (lessRR origin) records') in E2.
  assert (P1 : Permutation records s1) by (apply insertionSort_Permutation in E1; exact E1).
  assert (P2 : Permutation records' s2) by (apply insertionSort_Permutation in E2; exact E2).
  assert (S : forall data sorted, insertionSort (lessRR origin) data = Ok sorted ->
              StronglySorted (notAfter (lessRR origin)) sorted).
  { intros data sorted E. apply Sorted_StronglySorted.
    - intros x y z. apply notAfter_trans.
    - apply ordered_Sorted.
      apply (insertionLoop_ordered (lessRR origin) (lessRR_asym origin) data [] sorted I E). }
  assert (Es : s1 = s2).
  { apply (StronglySorted_unique origin); [exact (S _ _ E1) | exact (S _ _ E2) | |].
    - eapply perm_trans; [apply Permutation_sym; exact P1|].
      eapply perm_trans; [exact Hp | exact P2].
    - intros a b Ha Hb. apply Hties; eapply Permutation_in;
        try (apply Permutation_sym; exact P1); assumption. }
  rewrite !WriteZoneFile_unfold, E1, E2, Es. reflexivity.
Qed.

Lemma render_permutation_invariant_witness :
  exampleWriteZoneFile "" [www_10_0_0_2; apex_A; mx20_mail] "example.com" 3600
  = exampleWriteZoneFile "" [mx20_mail; apex_A; www_10_0_0_2] "example.com" 3600.
Proof.
  apply (render_permutation_invariant exampleTrimDomainName exampleTypeToString
           "" [www_10_0_0_2; apex_A; mx20_mail] [mx20_mail; apex_A; www_10_0_0_2]
           "example.com" 3600).
  - apply (Permutation_rev [www_10_0_0_2; apex_A; mx20_mail]).
  - intros a b [<-|[<-|[<-|[]]]] [<-|[<-|[<-|[]]]]; eexists; reflexivity.
  - intros a b [<-|[<-|[<-|[]]]] [<-|[<-|[<-|[]]]] [H1 H2];
      try reflexivity; vm_compute in H1; vm_compute in H2; discriminate.
Defined.

(** ** The apex, and the grouping of names *)

(** A record at the zone's apex is less than every record at another
    name, and no such record is less than it. *)
Theorem Less_apex_first (origin : string) (a b : dns.RR) :
  comp origin a = (origin ++ ".")%string ->
  comp origin b <> (origin ++ ".")%string ->
  lessRR origin a b = Ok true /\ lessRR origin b a = Ok false.
Proof. apply lessRR_apex. Qed.

Lemma Less_apex_first_witness :
  lessRR "example.com" apex_A wildcard_A = Ok true
  /\ lessRR "example.com" wildcard_A apex_A = Ok false.
Proof.
  apply (Less_apex_first "example.com" apex_A wildcard_A);
    [reflexivity | discriminate].
Defined.

Lemma notAfter_label origin x y :
  notAfter (lessRR origin) x y ->
  zoneLabelLess (normLabel origin y) (normLabel origin x) = false.
Proof.
  unfold notAfter. rewrite lessRR_levels.
  destruct (String.eqb_spec (normLabel origin y) (normLabel origin x)) as [->|_];
    cbn [negb].
  - intros _. apply (st_irrefl _ StrictTotal_zoneLabelLess).
  - intros E. injection E as ->. reflexivity.
Qed.

Lemma StronglySorted_app_r (R : dns.RR -> dns.RR -> Prop) (l1 l2 : list dns.RR) :
  StronglySorted R (l1 ++ l2) -> StronglySorted R l2.
Proof.
  induction l1 as [|a l1 IH]; simpl; trivial.
  intros H. apply StronglySorted_inv in H. apply IH. apply H.
Qed.

Lemma StronglySorted_later (R : dns.RR -> dns.RR -> Prop) l1 x l2 y l3 :
  StronglySorted R (l1 ++ x :: l2 ++ y :: l3) -> R x y.
Proof.
  intros H. apply StronglySorted_app_r in H.
  apply StronglySorted_inv in H. destruct H as [_ F].
  rewrite Forall_forall in F. apply F.
  apply in_or_app. right. left. reflexivity.
Qed.

(** In any order of the records in which no record is less than an
    earlier one, the records of one name stand together: a record
    between two records of one name has that name too. *)
Theorem sorted_names_contiguous (origin : string)
    (l1 l2 l3 l4 : list dns.RR) (x y z : dns.RR) :
  StronglySorted (notAfter (lessRR origin))
    (l1 ++ x :: l2 ++ y :: l3 ++ z :: l4) ->
  comp origin x = comp origin z ->
  comp origin y = comp origin x.
Proof.
  intros HS Exz.
  pose proof (StronglySorted_later _ _ _ _ _ _ HS) as Hxy.
  assert (Hyz : notAfter (lessRR origin) y z).
  { apply (StronglySorted_later _ (l1 ++ x :: l2) y l3 z l4).
    rewrite <- app_assoc. exact HS. }
  apply notAfter_label in Hxy, Hyz.
  apply normLabel_eq in Exz. rewrite <- Exz in Hyz.
  apply normLabel_eq. apply (st_total _ StrictTotal_zoneLabelLess); assumption.
Qed.

Lemma sorted_names_contiguous_witness :
  comp "example.com" mx10_mail1 = comp "example.com" apex_A.
Proof.
  apply (sorted_names_contiguous "example.com" [] [] [] [www_10_0_0_2]
           apex_A mx10_mail1 mx20_mail).
  - repeat constructor.
  - reflexivity.
Defined.
